(** * ClusterPipe: obsID validation, PSF estimate and sky-map rendering

    A shallow embedding of
    - [Admin._check_obsID]          (clustpipe_admin.py),
    - [get_cta_psf] and [show_map]  (Tools/plotting.py).

    Python floats are idealised as real numbers: a value is a finite float
    and arithmetic is exact.  [FloatPixels] follows [show_map] on pixels
    that are [nan] or infinite.  The calls into numpy, scipy and matplotlib
    are modelled by what their documentation promises for the arguments the
    source passes. *)

From Stdlib Require Import Reals Lra List Sorted String Ascii Bool Arith Lia.
From stdpp Require Import gmap strings.
Import ListNotations.

(** ** Python outcomes *)

Inductive exn : Type :=
| ValueError (msg : string)
| TypeError (msg : string)
| IndexError (msg : string).

Inductive outcome (A : Type) : Type :=
| Returned (a : A)
| Raised (e : exn).
Arguments Returned {A} a.
Arguments Raised {A} e.

(** * Admin._check_obsID *)

Module Admin.

Local Open Scope string_scope.

(** The values a caller can pass as [obsID], and the items of the list the
    method returns: [PyStr] is a Python [str], [PyNpStr] a [numpy.str_], the
    item type of a numpy array of strings.  A [numpy.str_] compares and
    hashes like the [str] of the same text, but its [type] is not [str]. *)
#[local] Set Warnings "-register-all".
Inductive pyval : Type :=
| PyNone
| PyStr (s : string)
| PyNpStr (s : string)
| PyInt (n : Z)
| PyList (l : list pyval).

(** The object the method reads: [self.obs_setup.obsid] and [self.silent]. *)
Record self_t : Type := { obs_setup_obsid : list string; silent : bool }.

(** [x in self.obs_setup.obsid] *)
Definition py_in (x : string) (l : list string) : bool :=
  bool_decide (x ∈ l).

(** What one call leaves behind: the lines printed, then the outcome. *)
Definition run (A : Type) : Type := (list string * outcome A)%type.

(** The body of [for i in range(len(obsID))]: the type check raises at the
    first element that is not a string; an unknown obsID is reported (unless
    [silent]) and flagged [False] in [good]. *)
Fixpoint flag_entries (self : self_t) (l : list pyval)
  : run (list (string * bool)) :=
  match l with
  | [] => ([], Returned [])
  | PyStr s :: rest =>
      let known := py_in s (obs_setup_obsid self) in
      let line :=
        if known then []
        else if silent self then []
        else ["WARNING: obsID " ++ s ++ " does not exist, ignore it"] in
      match flag_entries self rest with
      | (out, Returned flags) =>
          ((line ++ out)%list, Returned ((s, known) :: flags))
      | (out, Raised e) => ((line ++ out)%list, Raised e)
      end
  | _ :: _ =>
      ([], Raised (ValueError
                     "The given obsID should be a string or a list of string."))
  end.

(** An item read back from [np.array(obsID)]: the array stores its strings
    in cells of one width, padded with NUL characters, and an item is the
    cell without its trailing NULs; so a string loses the NULs it ends with. *)
Fixpoint np_item (s : string) : string :=
  match s with
  | EmptyString => EmptyString
  | String c rest =>
      match np_item rest with
      | EmptyString =>
          if Ascii.eqb c Ascii.zero then EmptyString else String c EmptyString
      | kept => String c kept
      end
  end.

(** [np.array(obsID)[good]]: the texts of the items that are kept. *)
Definition select_good (flags : list (string * bool)) : list string :=
  map (fun p : string * bool => np_item (fst p))
      (List.filter (fun p : string * bool => snd p) flags).

(** [np.sum(good)] *)
Definition count_good (flags : list (string * bool)) : nat :=
  length (List.filter (fun p : string * bool => snd p) flags).

(** [list(set(obsID))]: the members once each, in the set's own order. *)
Definition list_of_set (l : list string) : list string :=
  elements (list_to_set l : gset string).

(** [self.obs_setup.obsid] is a list of [str]; the list branch returns the
    items of a numpy array, which are [numpy.str_]. *)
Definition _check_obsID (self : self_t) (obsID : pyval) : run (list pyval) :=
  match obsID with
  | PyNone => ([], Returned (map PyStr (obs_setup_obsid self)))
  | PyStr s =>
      if py_in s (obs_setup_obsid self) then ([], Returned [PyStr s])
      else ([], Raised (ValueError
             "The given obsID does not match any of the available observation ID."))
  | PyList l =>
      match flag_entries self l with
      | (out, Raised e) => (out, Raised e)
      | (out, Returned flags) =>
          if Nat.eqb (count_good flags) 0
          then (out, Raised (ValueError "None of the given obsID exist"))
          else (out, Returned (map PyNpStr (list_of_set (select_good flags))))
      end
  | _ => ([], Raised (ValueError
                        "The obsID should be either a list or a string."))
  end.

(** A list whose elements are all strings. *)
Definition str_list (ss : list string) : pyval := PyList (map PyStr ss).

Definition is_str (v : pyval) : bool :=
  match v with PyStr _ => true | _ => false end.

Definition raises_ValueError {A} (r : run A) : Prop :=
  exists msg, snd r = Raised (ValueError msg).

End Admin.

(** * Tools.plotting *)

Module Plotting.

Local Open Scope R_scope.

(** ** numpy helpers *)

Definition Rltb (a b : R) : bool := if Rlt_dec a b then true else false.
Definition Rgtb (a b : R) : bool := Rltb b a.
Definition Reqb (a b : R) : bool := if Req_dec_T a b then true else false.

(** A float64 quotient: the one place of the source where a division by
    zero yields a value that is not a real number. *)
Inductive npfloat : Type :=
| Finite (r : R)
| PosInf
| NegInf
| NaN.

(** [a / b] on numpy floats: no exception, [0/0] is [nan]. *)
Definition np_divide (a b : R) : npfloat :=
  if Reqb b 0 then
    if Reqb a 0 then NaN else if Rltb 0 a then PosInf else NegInf
  else Finite (a / b).

(** [np.sum] *)
Definition np_sum (l : list R) : R := fold_right Rplus 0 l.

(** [a[mask]] for a boolean array [mask] of the same length. *)
Fixpoint np_mask {A : Type} (a : list A) (mask : list bool) : list A :=
  match a, mask with
  | x :: a', b :: mask' => if b then x :: np_mask a' mask' else np_mask a' mask'
  | _, _ => []
  end.

(** Element-wise product of two arrays of the same length. *)
Fixpoint np_mul (a b : list R) : list R :=
  match a, b with
  | x :: a', y :: b' => x * y :: np_mul a' b'
  | _, _ => []
  end.

(** [np.log10], [10**y] and [x**w] on positive reals. *)
Definition log10 (x : R) : R := ln x / ln 10.
Definition pow10 (y : R) : R := Rpower 10 y.
Definition np_power (x w : R) : R := Rpower x w.

(** [np.linspace(start, stop, num)]: [start + i*step] with
    [step = (stop - start)/(num - 1)], the last sample set to [stop]. *)
Definition linspace (start stop : R) (num : nat) : list R :=
  let step := (stop - start) / INR (num - 1) in
  map (fun i : nat =>
         if (Nat.ltb 0 i && Nat.eqb i (num - 1))%bool then stop
         else start + INR i * step)
      (seq 0 num).

(** [np.logspace(start, stop, num)] in base 10.  Over the reals
    [10**log10(e)] is [e]; a float64 grid can miss its ends by a rounding
    error, so the statements about the grid keep the ends of the energy
    range strictly away from the ends of the sample range. *)
Definition logspace (start stop : R) (num : nat) : list R :=
  map pow10 (linspace start stop num).

(** ** get_cta_psf *)

(** The rows of the PSF extension of the IRF file that the function reads:
    [THETA_LO[0,:]], [THETA_HI[0,:]], [ENERG_LO[0,:]], [ENERG_HI[0,:]] and the
    on-axis row [SIGMA_1[0,0,:]]. *)
Record irf_table : Type :=
  { THETA_LO : list R; THETA_HI : list R;
    ENERG_LO : list R; ENERG_HI : list R;
    SIGMA_1 : list R }.

(** [a + b] on two rows: element by element when the lengths agree, a row
    of length 1 is broadcast over the other, and any other pair of lengths
    raises. *)
Definition np_add (a b : list R) : outcome (list R) :=
  if Nat.eqb (length a) (length b)
  then Returned (map (fun p : R * R => fst p + snd p) (combine a b))
  else
    match a, b with
    | [x], _ => Returned (map (fun y => x + y) b)
    | _, [y] => Returned (map (fun x => x + y) a)
    | _, _ =>
        Raised (ValueError "operands could not be broadcast together")
    end.

(** [(lo + hi) / 2.0] *)
Definition bin_centres (lo hi : list R) : outcome (list R) :=
  match np_add lo hi with
  | Returned sums => Returned (map (fun x => x / 2) sums)
  | Raised e => Raised e
  end.

Definition theta_mean (t : irf_table) : outcome (list R) :=
  bin_centres (THETA_LO t) (THETA_HI t).

Definition eng_mean (t : irf_table) : outcome (list R) :=
  bin_centres (ENERG_LO t) (ENERG_HI t).

(** Whether a value occurs twice in [xs]. *)
Fixpoint has_duplicate (xs : list R) : bool :=
  match xs with
  | [] => false
  | x :: rest => existsb (Reqb x) rest || has_duplicate rest
  end.

(** Smallest and largest abscissa: the ends of the range [interp1d] keeps
    after it has sorted [x]. *)
Definition range_lo (x0 : R) (xs : list R) : R := fold_right Rmin x0 xs.
Definition range_hi (x0 : R) (xs : list R) : R := fold_right Rmax x0 xs.

(** The object [interp1d] returns: its range and its evaluation. *)
Record interpolant : Type :=
  { x_lo : R; x_hi : R; spline : R -> R }.

Section PSF.

(** scipy's cubic spline through the samples [(x_i, y_i)], evaluated at a
    point of their range. *)
Variable cubic_spline : list R -> list R -> R -> R.

(** [interpolate.interp1d(x, y, kind='cubic')]: a spline of order 3 needs
    four samples, at abscissae that are all different; [bounds_error] keeps
    its default. *)
Definition interp1d (x y : list R) : outcome interpolant :=
  if negb (Nat.eqb (length x) (length y)) then
    Raised (ValueError
      "x and y arrays must be equal in length along interpolation axis.")
  else
    match x with
    | x0 :: xs =>
        if Nat.ltb (length x) 4 then
          Raised (ValueError "x and y arrays must have at least 4 entries")
        else if has_duplicate x then
          Raised (ValueError "Expect x to not have duplicates")
        else
          Returned {| x_lo := range_lo x0 xs;
                      x_hi := range_hi x0 xs;
                      spline := cubic_spline x y |}
    | [] => Raised (ValueError "x and y arrays must have at least 4 entries")
    end.

(** [fitpl(x_new)]: with the default [bounds_error], a point outside the
    range of the samples raises; nothing is extrapolated. *)
Definition interp_call (f : interpolant) (x_new : list R) : outcome (list R) :=
  if existsb (fun x => Rltb x (x_lo f)) x_new then
    Raised (ValueError "A value in x_new is below the interpolation range.")
  else if existsb (fun x => Rgtb x (x_hi f)) x_new then
    Raised (ValueError "A value in x_new is above the interpolation range.")
  else Returned (map (spline f) x_new).

Definition get_cta_psf (data_PSF : irf_table) (emin emax w8_slope : R)
  : outcome npfloat :=
  match theta_mean data_PSF with
  | Raised e => Raised e
  | Returned theta_mean =>
  match eng_mean data_PSF with
  | Raised e => Raised e
  | Returned eng_mean =>
  let PSF_E := SIGMA_1 data_PSF in
  match interp1d eng_mean PSF_E with
  | Raised e => Raised e
  | Returned fitpl =>
      let e_itpl := logspace (log10 emin) (log10 emax) 1000 in
      match interp_call fitpl e_itpl with
      | Raised e => Raised e
      | Returned PSF_itpl =>
          let PSF_itpl := map (fun p => p * 2 * sqrt (2 * ln 2)) PSF_itpl in
          let weng := map (fun e => (Rgtb e emin && Rltb e emax)%bool) e_itpl in
          Returned
            (np_divide
               (np_sum (np_mul (np_mask PSF_itpl weng)
                               (map (fun e => np_power e w8_slope)
                                    (np_mask e_itpl weng))))
               (np_sum (map (fun e => np_power e w8_slope)
                            (np_mask e_itpl weng))))
      end
  end
  end
  end.

End PSF.

(** ** show_map: data *)

(** An argument that is [None], a float, or a Python list of floats. *)
Inductive coord : Type :=
| CNone
| CNum (x : R)
| CList (l : list R).

(** [data.data]: the pixel rows, of finite pixels. *)
Abbreviation image := (list (list R)).

(** The fields of [WCS(data.header).wcs] that the function reads. *)
Record wcs_t : Type := { cdelt : R * R; crval : R * R; crpix : R * R }.

(** [fits.open(mapfile)[0]] *)
Record hdu_t : Type := { hdu_data : image; hdu_header : wcs_t }.

Inductive colornorm : Type :=
| NormLinear
| SymLogNorm (linthresh : R).

(** What the function puts on the axes, in call order. *)
Inductive artist : Type :=
| Imshow (img : image) (cmap : string) (norm : colornorm) (vmin vmax : R)
| Ellipse (x y width height : R) (fill : bool) (edgecolor : string)
| Scatter (x y : coord) (marker color : string) (s : R)
| Text (x y : coord) (s color : string)
| XLabel (s : string)
| YLabel (s : string)
| Title (s : string)
| Colorbar (label : string).

Record show_map_args : Type :=
  { mapfile : hdu_t;
    outfile : string;
    smoothing_FWHM : R;
    cluster_ra : option R;
    cluster_dec : option R;
    cluster_t500 : option R;
    cluster_name : string;
    ps_name : list string;
    ps_ra : list (option R);
    ps_dec : list (option R);
    ptg_ra : coord;
    ptg_dec : coord;
    PSF : option R;
    maptitle : string;
    bartitle : string;
    rangevalue : option R * option R;
    logscale : bool;
    significance : bool;
    cmap : string }.

(** ** show_map: effects *)

(** The lines printed, the artists on the current axes, the files written. *)
Record world : Type :=
  { stdout : list string;
    axes : list artist;
    saved : list (string * list artist) }.

Definition world0 : world := {| stdout := []; axes := []; saved := [] |}.

Definition M (A : Type) : Type := world -> world * outcome A.

Definition ret {A : Type} (a : A) : M A := fun w => (w, Returned a).

Definition bind {A B : Type} (m : M A) (k : A -> M B) : M B :=
  fun w =>
    match m w with
    | (w', Returned a) => k a w'
    | (w', Raised e) => (w', Raised e)
    end.

Notation "'do' x <- m ; k" := (bind m (fun x => k))
  (at level 10, x name, m at level 100, k at level 200).
Notation "m ;; k" := (bind m (fun _ => k))
  (at level 100, k at level 200, right associativity).

Definition raise {A : Type} (e : exn) : M A := fun w => (w, Raised e).

Definition lift {A : Type} (o : outcome A) : M A := fun w => (w, o).

(** [try: m  except: h] with a bare [except]. *)
Definition try_except {A : Type} (m h : M A) : M A :=
  fun w =>
    match m w with
    | (w', Raised _) => h w'
    | r => r
    end.

Definition print (line : string) : M unit :=
  fun w => ({| stdout := stdout w ++ [line]; axes := axes w; saved := saved w |},
            Returned tt).

Definition add_artist (a : artist) : M unit :=
  fun w => ({| stdout := stdout w; axes := axes w ++ [a]; saved := saved w |},
            Returned tt).

Definition when (b : bool) (m : M unit) : M unit := if b then m else ret tt.

(** [for x in l: body(x)] *)
Fixpoint for_each {A : Type} (l : list A) (body : A -> M unit) : M unit :=
  match l with
  | [] => ret tt
  | x :: l' => body x ;; for_each l' body
  end.

Definition is_scalar (c : coord) : bool :=
  match c with CNum _ => true | _ => false end.

Definition text_anchor_ok (a : artist) : bool :=
  match a with
  | Text x y _ _ => is_scalar x && is_scalar y
  | _ => true
  end.

(** [fig.savefig(outfile, bbox_inches='tight')]: drawing converts each text
    anchor with [float(...)], which refuses a list. *)
Definition savefig (name : string) : M unit :=
  fun w =>
    if forallb text_anchor_ok (axes w) then
      ({| stdout := stdout w; axes := axes w;
          saved := saved w ++ [(name, axes w)] |}, Returned tt)
    else (w, Raised (TypeError "float() argument must be a real number")).

(** ** show_map: numpy and matplotlib calls *)

(** [np.amax] and [np.amin] of the whole array; an array without elements
    raises. *)
Definition np_amax (img : image) : outcome R :=
  match concat img with
  | [] => Raised (ValueError "zero-size array to reduction operation maximum")
  | p :: ps => Returned (fold_left Rmax ps p)
  end.

Definition np_amin (img : image) : outcome R :=
  match concat img with
  | [] => Raised (ValueError "zero-size array to reduction operation minimum")
  | p :: ps => Returned (fold_left Rmin ps p)
  end.

(** [image *= norm], on finite pixels. *)
Definition scale_image (img : image) (norm : R) : image :=
  map (map (fun p => p * norm)) img.

(** [c + d] for a float [d]. *)
Definition py_add_float (c : coord) (d : R) : outcome coord :=
  match c with
  | CNum x => Returned (CNum (x + d))
  | CList _ => Raised (TypeError "can only concatenate list to list")
  | CNone => Raised (TypeError "unsupported operand type(s) for +")
  end.

(** [c[0]] *)
Definition py_first (c : coord) : outcome R :=
  match c with
  | CList (x :: _) => Returned x
  | CList [] => Raised (IndexError "list index out of range")
  | CNum _ => Raised (TypeError "float object is not subscriptable")
  | CNone => Raised (TypeError "NoneType object is not subscriptable")
  end.

Definition coord_size (c : coord) : nat :=
  match c with
  | CList l => length l
  | _ => 1%nat
  end.

(** [ax.scatter(x, y, ...)]: both arguments must have the same size. *)
Definition scatter (x y : coord) (marker color : string) (s : R) : M unit :=
  if Nat.eqb (coord_size x) (coord_size y)
  then add_artist (Scatter x y marker color s)
  else raise (ValueError "x and y must be the same size").

(** [l[i]] on a Python list. *)
Definition py_index {A : Type} (l : list A) (i : nat) : M A :=
  match l !! i with
  | Some x => ret x
  | None => raise (IndexError "list index out of range")
  end.

Definition is_not_None {A : Type} (o : option A) : bool :=
  match o with Some _ => true | None => false end.

Definition coord_is_not_None (c : coord) : bool :=
  match c with CNone => false | _ => true end.

Section Render.

(** [scipy.ndimage.gaussian_filter] is a linear filter: an output pixel is a
    weighted sum of the input pixels.  [gauss_weight sigma shape out inp] is
    the weight with which the input pixel [inp] enters the output pixel
    [out] (kernel, truncation and the reflection at the border included). *)
Variable gauss_weight : R -> nat * nat -> nat * nat -> nat * nat -> R.

Fixpoint sum_row (w : nat -> R) (l : nat) (row : list R) : R :=
  match row with
  | [] => 0
  | p :: row' => w l * p + sum_row w (S l) row'
  end.

Fixpoint sum_image (w : nat * nat -> R) (k : nat) (img : image) : R :=
  match img with
  | [] => 0
  | row :: img' => sum_row (fun l => w (k, l)) 0 row + sum_image w (S k) img'
  end.

Definition image_shape (img : image) : nat * nat :=
  (length img, match img with [] => 0%nat | row :: _ => length row end).

Definition gaussian_blur (img : image) (sigma : R) : image :=
  imap (fun i row =>
          imap (fun j (_ : R) =>
                  sum_image (gauss_weight sigma (image_shape img) (i, j)) 0 img)
               row)
       img.

(** [ndimage.gaussian_filter(image, sigma=sigma)]: an axis is filtered only
    when its [sigma > 1e-15]; otherwise the input is copied to the output. *)
Definition gaussian_filter (img : image) (sigma : R) : image :=
  if Rltb 1e-15 sigma then gaussian_blur img sigma else img.

(** ** show_map: the overlays *)

(** Show cluster t500 *)
Definition show_t500 (a : show_map_args) : M unit :=
  match cluster_t500 a, cluster_ra a, cluster_dec a with
  | Some cluster_t500, Some cluster_ra, Some cluster_dec =>
      let circle_rad := 2 * cluster_t500 / cos (cluster_dec * PI / 180) in
      add_artist (Ellipse cluster_ra cluster_dec circle_rad (2 * cluster_t500)
                          false "lightgray") ;;
      add_artist (Text (CNum (cluster_ra - cluster_t500))
                       (CNum (cluster_dec - cluster_t500))
                       "$R_{500}$" "lightgray")
  | _, _, _ => ret tt
  end.

(** Show the pointing *)
Definition show_pointing (a : show_map_args) : M unit :=
  when (coord_is_not_None (ptg_ra a) && coord_is_not_None (ptg_dec a))
    (scatter (ptg_ra a) (ptg_dec a) "x" "white" 100 ;;
     try_except
       (do y <- lift (py_add_float (ptg_dec a) 0.2);
        add_artist (Text (ptg_ra a) y "Pointing" "white"))
       (do x0 <- lift (py_first (ptg_ra a));
        do y0 <- lift (py_first (ptg_dec a));
        add_artist (Text (CNum x0) (CNum (y0 + 0.2)) "Pointings" "white"))).

(** Show the cluster center *)
Definition show_center (a : show_map_args) : M unit :=
  match cluster_ra a, cluster_dec a with
  | Some cluster_ra, Some cluster_dec =>
      scatter (CNum cluster_ra) (CNum cluster_dec) "x" "cyan" 100 ;;
      add_artist (Text (CNum cluster_ra) (CNum (cluster_dec - 0.2))
                       (cluster_name a) "cyan")
  | _, _ => ret tt
  end.

(** The marker and the label of one point source. *)
Definition ps_artists (name : string) (ra dec : R) : list artist :=
  [ Scatter (CNum ra) (CNum dec) "o" "green" 200;
    Text (CNum (ra - 0.1)) (CNum (dec + 0.1)) name "green" ].

(** Show the point sources: the body of the loop, then the loop. *)
Definition show_point_source (ps_name : list string)
    (ps_ra ps_dec : list (option R)) (i : nat) : M unit :=
  do ra <- py_index ps_ra i;
  do dec <- py_index ps_dec i;
  match ra, dec with
  | Some ra, Some dec =>
      scatter (CNum ra) (CNum dec) "o" "green" 200 ;;
      do name <- py_index ps_name i;
      add_artist (Text (CNum (ra - 0.1)) (CNum (dec + 0.1)) name "green")
  | _, _ => ret tt
  end.

Definition show_point_sources (ps_name : list string)
    (ps_ra ps_dec : list (option R)) : M unit :=
  for_each (seq 0 (length ps_name)) (show_point_source ps_name ps_ra ps_dec).

(** Show the PSF *)
Definition show_PSF (wcs_map : wcs_t) (PSF : option R) : M unit :=
  match PSF with
  | Some PSF =>
      let crval := crval wcs_map in
      let crpix_cdelt :=
        (fst (crpix wcs_map) * fst (cdelt wcs_map),
         snd (crpix wcs_map) * snd (cdelt wcs_map)) in
      let dec_mean_cor :=
        cos ((snd crval - snd crpix_cdelt + 0.3) * PI / 180) in
      let circle_ra := fst crval - fst crpix_cdelt / dec_mean_cor - 0.3 in
      let circle_dec := snd crval - snd crpix_cdelt + 0.3 in
      let txt_ra := fst crval - fst crpix_cdelt / dec_mean_cor - 0.6 in
      let txt_dec := snd crval - snd crpix_cdelt + 0.3 in
      add_artist (Text (CNum txt_ra) (CNum txt_dec) "PSF" "white") ;;
      add_artist (Ellipse circle_ra circle_dec (PSF / dec_mean_cor) PSF
                          true "white")
  | None => ret tt
  end.

(** ** show_map *)

Definition boost_line_1 : string :=
  "WARNING: The significance is boosted accounting for smoothing.".
Definition boost_line_2 : string :=
  "         This assumes weak noise spatial variarion (w.r.t. smoothing), gaussian regime, and uncorrelated pixels.".
Definition empty_line (outfile : string) : string :=
  ("!!!!!!!!!! WARNING: empty map, " ++ outfile ++ " was not created")%string.

(** [sigma_sm] *)
Definition sigma_px (smoothing_FWHM reso : R) : R :=
  smoothing_FWHM / (2 * sqrt (2 * ln 2)) / reso.

(** [norm] *)
Definition significance_norm (sigma_sm : R) : R := 2 * sigma_sm * sqrt PI.

(** The image after the smoothing step. *)
Definition smoothed (a : show_map_args) : image :=
  let wcs_map := hdu_header (mapfile a) in
  let reso := Rabs (fst (cdelt wcs_map)) in
  gaussian_filter (hdu_data (mapfile a)) (sigma_px (smoothing_FWHM a) reso).

(** The image that is tested and plotted: after the significance step. *)
Definition processed (a : show_map_args) : image :=
  let wcs_map := hdu_header (mapfile a) in
  let reso := Rabs (fst (cdelt wcs_map)) in
  let sigma_sm := sigma_px (smoothing_FWHM a) reso in
  if significance a
  then scale_image (smoothed a) (significance_norm sigma_sm)
  else smoothed a.

(** The branch that plots: the image, the overlays, the labels, the file. *)
Definition plot_map (a : show_map_args) (image : image) (vmin vmax : R)
  : M unit :=
  let wcs_map := hdu_header (mapfile a) in
  add_artist (Imshow image (cmap a)
                     (if logscale a then SymLogNorm 1 else NormLinear)
                     vmin vmax) ;;
  show_t500 a ;;
  show_pointing a ;;
  show_center a ;;
  show_point_sources (ps_name a) (ps_ra a) (ps_dec a) ;;
  show_PSF wcs_map (PSF a) ;;
  add_artist (XLabel "R.A. (deg)") ;;
  add_artist (YLabel "Dec (deg)") ;;
  add_artist (Title (maptitle a)) ;;
  add_artist (Colorbar (bartitle a)) ;;
  savefig (outfile a).

Definition show_map (a : show_map_args) : M unit :=
  (* Smoothing *)
  let image := processed a in
  when (significance a) (print boost_line_1 ;; print boost_line_2) ;;
  (* map range *)
  do vmin <- match fst (rangevalue a) with
             | None => lift (np_amin image)
             | Some v => ret v
             end;
  do vmax <- match snd (rangevalue a) with
             | None => lift (np_amax image)
             | Some v => ret v
             end;
  (* Plot *)
  do amax <- lift (np_amax image);
  do empty <- (if Reqb amax 0
               then do amin <- lift (np_amin image); ret (Reqb amin 0)
               else ret false);
  if negb empty then plot_map a image vmin vmax
  else print (empty_line (outfile a)).

End Render.

(** ** Vocabulary of the statements *)

(** A raster with at least one pixel, and a raster of zeros. *)
Definition has_pixels (img : image) : Prop := concat img <> [].
Definition all_zero (img : image) : Prop := Forall (Forall (fun p => p = 0)) img.

(** Samples in strictly increasing order of energy. *)
Definition increasing (xs : list R) : Prop := StronglySorted Rlt xs.

(** The grid point of index [i] on a grid of [m + 2] points, before the
    power of ten is taken. *)
Definition grid_exponent (a b : R) (m i : nat) : R :=
  a + INR i * ((b - a) / INR (S m)).

(** The test behind the mask [weng]. *)
Definition strictly_inside (emin emax e : R) : bool :=
  Rgtb e emin && Rltb e emax.

(** The FWHM read off the spline through the samples [(es, sigmas)] at the
    energy [e]. *)
Definition fwhm_at (spline : list R -> list R -> R -> R)
    (es sigmas : list R) (e : R) : R :=
  spline es sigmas e * (2 * sqrt (2 * ln 2)).

(** [sum(width_i * E_i**slope) / sum(E_i**slope)] over the energies [es]. *)
Definition weighted_mean (width : R -> R) (slope : R) (es : list R) : R :=
  np_sum (map (fun e => width e * np_power e slope) es)
  / np_sum (map (fun e => np_power e slope) es).

(** The world after the artists [l] have been added to the axes. *)
Definition drawn (w : world) (l : list artist) : world :=
  {| stdout := stdout w; axes := axes w ++ l; saved := saved w |}.

(** What one entry of the point-source lists puts on the axes. *)
Definition entry_artists (e : string * (option R * option R)) : list artist :=
  match e with
  | (name, (Some ra, Some dec)) => ps_artists name ra dec
  | _ => []
  end.

(** A step that adds the artists [l] to the axes and does nothing else. *)
Definition adds (m : M unit) (l : list artist) : Prop :=
  forall w, m w = (drawn w l, Returned tt).

(** The artists of the point sources: the green circles and green labels. *)
Definition is_point_source_artist (x : artist) : bool :=
  match x with
  | Scatter _ _ marker color _ =>
      String.eqb marker "o" && String.eqb color "green"
  | Text _ _ _ color => String.eqb color "green"
  | _ => false
  end.

(** The artists of the pointing: the white crosses and the white label
    that reads Pointing or Pointings. *)
Definition is_pointing_artist (x : artist) : bool :=
  match x with
  | Scatter _ _ marker color _ =>
      String.eqb marker "x" && String.eqb color "white"
  | Text _ _ s color =>
      String.eqb color "white"
      && (String.eqb s "Pointing" || String.eqb s "Pointings")
  | _ => false
  end.

(** An artist of another overlay, with a text anchor that can be drawn. *)
Definition background (x : artist) : bool :=
  negb (is_point_source_artist x) && negb (is_pointing_artist x)
  && text_anchor_ok x.

(** Pointing arguments that the pointing overlay accepts: one of them
    [None] (no overlay), two floats, or two non-empty lists of one length. *)
Definition pointing_ok (ra dec : coord) : bool :=
  match ra, dec with
  | CNone, _ => true
  | _, CNone => true
  | CNum _, CNum _ => true
  | CList (_ :: ras), CList (_ :: decs) => Nat.eqb (length ras) (length decs)
  | _, _ => false
  end.

(** A call with a linear colour scale whose range is taken from the image,
    without the region and without the PSF glyph. *)
Definition plain_call (a : show_map_args) : Prop :=
  logscale a = false
  /\ rangevalue a = (None, None)
  /\ cluster_t500 a = None
  /\ PSF a = None.

(** A step that adds artists that satisfy [Q] and does nothing else to the
    world, whether it returns or raises. *)
Definition quiet (Q : artist -> bool) {A : Type} (m : M A) : Prop :=
  forall w, exists l, fst (m w) = drawn w l /\ forallb Q l = true.

(** The pixel in row [i], column [j]. *)
Definition pixel (img : image) (i j : nat) : option R :=
  match img !! i with
  | Some row => row !! j
  | None => None
  end.

(** The lines the significance step prints. *)
Definition boost_lines (a : show_map_args) : list string :=
  if significance a then [boost_line_1; boost_line_2] else [].

(** A printed line that announces a warning. *)
Definition is_warning (line : string) : bool :=
  match String.index 0 "WARNING" line with
  | Some _ => true
  | None => false
  end.

(** ** Sample inputs *)

(** A filter that copies its input: the weight of a pixel is 1 on itself
    and 0 on every other pixel. *)
Definition copy_weight (sigma : R) (shape out inp : nat * nat) : R :=
  if (Nat.eqb (fst out) (fst inp) && Nat.eqb (snd out) (snd inp))%bool
  then 1 else 0.

(** A call with the default overlays on a map of 0.02 deg pixels. *)
Definition sample_call (img : image) (fwhm : R) (sig : bool) : show_map_args :=
  {| mapfile := {| hdu_data := img;
                   hdu_header := {| cdelt := (-0.02, 0.02);
                                    crval := (83.63, 22.01);
                                    crpix := (1, 1) |} |};
     outfile := "map.png";
     smoothing_FWHM := fwhm;
     cluster_ra := None; cluster_dec := None; cluster_t500 := None;
     cluster_name := "";
     ps_name := []; ps_ra := []; ps_dec := [];
     ptg_ra := CNone; ptg_dec := CNone;
     PSF := None;
     maptitle := ""; bartitle := "";
     rangevalue := (None, None);
     logscale := true;
     significance := sig;
     cmap := "magma" |}.

(** The polynomial through the samples, in Lagrange form: for four samples
    it is the cubic that the spline reduces to. *)
Definition lagrange (xs ys : list R) (x : R) : R :=
  np_sum (map (fun s : R * R =>
                 snd s * fold_right Rmult 1
                           (map (fun xj => if Reqb xj (fst s) then 1
                                           else (x - xj) / (fst s - xj)) xs))
              (combine xs ys)).

(** An on-axis PSF table with four energy bins, and one with two; the bin
    centres of the first. *)
Definition four_bins : irf_table :=
  {| THETA_LO := [0; 1]; THETA_HI := [1; 2];
     ENERG_LO := [0.1; 1; 10; 100];
     ENERG_HI := [1; 10; 100; 1000];
     SIGMA_1 := [0.08; 0.04; 0.02; 0.015] |}.

Definition four_centres : list R :=
  [(0.1 + 1) / 2; (1 + 10) / 2; (10 + 100) / 2; (100 + 1000) / 2].

Definition two_bins : irf_table :=
  {| THETA_LO := [0; 1]; THETA_HI := [1; 2];
     ENERG_LO := [1; 2]; ENERG_HI := [2; 3]; SIGMA_1 := [0.1; 0.05] |}.

Definition two_centres : list R := [(1 + 2) / 2; (2 + 3) / 2].

(** A call with a cluster at declination 60 deg and radius 0.5 deg, two
    pointings and three point sources, the second without right ascension. *)
Definition overlay_call (img : image) : show_map_args :=
  {| mapfile := {| hdu_data := img;
                   hdu_header := {| cdelt := (-0.02, 0.02);
                                    crval := (83.63, 60);
                                    crpix := (1, 1) |} |};
     outfile := "map.png";
     smoothing_FWHM := 0;
     cluster_ra := Some 83.63; cluster_dec := Some 60;
     cluster_t500 := Some 0.5;
     cluster_name := "Cluster";
     ps_name := ["A"; "B"; "C"];
     ps_ra := [Some 83.5; None; Some 83.9];
     ps_dec := [Some 60.1; Some 60.2; Some 59.9];
     ptg_ra := CList [83.6; 83.7]; ptg_dec := CList [60; 60.1];
     PSF := Some 0.1;
     maptitle := "Counts"; bartitle := "counts";
     rangevalue := (None, None);
     logscale := false;
     significance := false;
     cmap := "magma" |}.

(** The default call with one pointing, given as a pair of floats. *)
Definition single_pointing_call (img : image) : show_map_args :=
  {| mapfile := {| hdu_data := img;
                   hdu_header := {| cdelt := (-0.02, 0.02);
                                    crval := (83.63, 22.01);
                                    crpix := (1, 1) |} |};
     outfile := "map.png";
     smoothing_FWHM := 0;
     cluster_ra := None; cluster_dec := None; cluster_t500 := None;
     cluster_name := "";
     ps_name := []; ps_ra := []; ps_dec := [];
     ptg_ra := CNum 83.6; ptg_dec := CNum 22;
     PSF := None;
     maptitle := ""; bartitle := "";
     rangevalue := (None, None);
     logscale := false;
     significance := false;
     cmap := "magma" |}.

(** A call with the cluster centre, two pointings and three point sources,
    the second without right ascension. *)
Definition sources_call (img : image) : show_map_args :=
  {| mapfile := {| hdu_data := img;
                   hdu_header := {| cdelt := (-0.02, 0.02);
                                    crval := (83.63, 60);
                                    crpix := (1, 1) |} |};
     outfile := "map.png";
     smoothing_FWHM := 0;
     cluster_ra := Some 83.63; cluster_dec := Some 60;
     cluster_t500 := None;
     cluster_name := "Cluster";
     ps_name := ["A"; "B"; "C"];
     ps_ra := [Some 83.5; None; Some 83.9];
     ps_dec := [Some 60.1; Some 60.2; Some 59.9];
     ptg_ra := CList [83.6; 83.7]; ptg_dec := CList [60; 60.1];
     PSF := None;
     maptitle := "Counts"; bartitle := "counts";
     rangevalue := (None, None);
     logscale := false;
     significance := false;
     cmap := "magma" |}.

(** The 10 x 10 grid of zeros and a 2 x 2 raster of counts. *)
Definition zeros_10x10 : image := repeat (repeat 0 10) 10.
Definition counts_2x2 : image := [[1; 2]; [3; 4]].

End Plotting.

(** * show_map on pixels that are not finite

    The pixels of a FITS image are float64 values, and [nan] and the
    infinities are among them.  [Plotting] follows a raster of finite
    pixels; this module follows the same lines of [show_map], from the
    smoothing to the test that chooses between the plot and the empty-map
    line, on pixels of any float64 value. *)

Module FloatPixels.

Import Plotting.
Local Open Scope R_scope.

Abbreviation fimage := (list (list npfloat)).

(** [p * c] for a pixel [p] and a finite factor [c]: [nan] stays [nan], and
    an infinity times 0 is [nan]. *)
Definition fl_scale (p : npfloat) (c : R) : npfloat :=
  match p with
  | Finite r => Finite (r * c)
  | NaN => NaN
  | PosInf => if Reqb c 0 then NaN else if Rltb 0 c then PosInf else NegInf
  | NegInf => if Reqb c 0 then NaN else if Rltb 0 c then NegInf else PosInf
  end.

(** The larger and the smaller of two floats as [np.amax] and [np.amin]
    take them: a [nan] wins over every other value. *)
Definition fl_max (p q : npfloat) : npfloat :=
  match p, q with
  | NaN, _ => NaN
  | _, NaN => NaN
  | PosInf, _ => PosInf
  | _, PosInf => PosInf
  | NegInf, x => x
  | x, NegInf => x
  | Finite a, Finite b => Finite (Rmax a b)
  end.

Definition fl_min (p q : npfloat) : npfloat :=
  match p, q with
  | NaN, _ => NaN
  | _, NaN => NaN
  | NegInf, _ => NegInf
  | _, NegInf => NegInf
  | PosInf, x => x
  | x, PosInf => x
  | Finite a, Finite b => Finite (Rmin a b)
  end.

(** [x == 0]: false for [nan] and for the infinities. *)
Definition fl_is_zero (p : npfloat) : bool :=
  match p with
  | Finite r => Reqb r 0
  | _ => false
  end.

Definition np_amax (img : fimage) : outcome npfloat :=
  match concat img with
  | [] => Raised (ValueError "zero-size array to reduction operation maximum")
  | p :: ps => Returned (fold_left fl_max ps p)
  end.

Definition np_amin (img : fimage) : outcome npfloat :=
  match concat img with
  | [] => Raised (ValueError "zero-size array to reduction operation minimum")
  | p :: ps => Returned (fold_left fl_min ps p)
  end.

(** [image *= norm] *)
Definition scale_image (img : fimage) (norm : R) : fimage :=
  map (map (fun p => fl_scale p norm)) img.

Section Smoothing.

(** What [scipy.ndimage.gaussian_filter] computes when it does filter. *)
Variable gaussian_blur : fimage -> R -> fimage.

(** [ndimage.gaussian_filter(image, sigma=sigma)]: an axis is filtered only
    when its [sigma > 1e-15]; otherwise the input is copied to the output. *)
Definition gaussian_filter (img : fimage) (sigma : R) : fimage :=
  if Rltb 1e-15 sigma then gaussian_blur img sigma else img.

(** The image that is tested: [data] smoothed, then rescaled in
    significance mode; [cdelt0] is [wcs_map.wcs.cdelt[0]]. *)
Definition processed (data : fimage) (cdelt0 smoothing_FWHM : R)
    (significance : bool) : fimage :=
  let reso := Rabs cdelt0 in
  let sigma_sm := sigma_px smoothing_FWHM reso in
  let image := gaussian_filter data sigma_sm in
  if significance
  then scale_image image (significance_norm sigma_sm)
  else image.

End Smoothing.

(** [(np.amax(image) == 0) and (np.amin(image) == 0)]: the test whose
    negation guards the plot; when it holds the empty-map line is printed. *)
Definition is_empty_map (image : fimage) : outcome bool :=
  match np_amax image with
  | Raised e => Raised e
  | Returned amax =>
      if fl_is_zero amax then
        match np_amin image with
        | Raised e => Raised e
        | Returned amin => Returned (fl_is_zero amin)
        end
      else Returned false
  end.

(** A filter that returns its input, and a raster with a [nan] pixel. *)
Definition copy_blur (img : fimage) (sigma : R) : fimage := img.

Definition nan_raster : fimage := [[Finite 1; NaN]].

End FloatPixels.

(** * Properties of Admin._check_obsID *)

Section AdminFacts.

Import Admin.

Variable self : self_t.

Lemma flag_entries_strings (ss : list string) :
  snd (flag_entries self (map PyStr ss))
  = Returned (map (fun s => (s, py_in s (obs_setup_obsid self))) ss).
Proof.
  induction ss as [|s ss IH]; simpl; [reflexivity|].
  destruct (flag_entries self (map PyStr ss)) as [out [flags|e]];
    simpl in IH; [|discriminate].
  injection IH as ->. reflexivity.
Qed.

Lemma select_good_strings (ss : list string) :
  select_good (map (fun s => (s, py_in s (obs_setup_obsid self))) ss)
  = map np_item (List.filter (fun s => py_in s (obs_setup_obsid self)) ss).
Proof.
  unfold select_good.
  induction ss as [|s ss IH]; simpl; [reflexivity|].
  destruct (py_in s (obs_setup_obsid self)); simpl; rewrite IH; reflexivity.
Qed.

Lemma count_good_select (flags : list (string * bool)) :
  count_good flags = length (select_good flags).
Proof. unfold count_good, select_good. now rewrite length_map. Qed.

Lemma elem_of_kept (ss : list string) (s : string) :
  s ∈ List.filter (fun s => py_in s (obs_setup_obsid self)) ss
  <-> s ∈ ss /\ s ∈ obs_setup_obsid self.
Proof.
  rewrite !list_elem_of_In, filter_In. unfold py_in.
  rewrite bool_decide_eq_true, list_elem_of_In. reflexivity.
Qed.

(** The items of the numpy array that are kept. *)
Lemma elem_of_np_kept (ss : list string) (x : pyval) :
  x ∈ map PyNpStr
        (list_of_set
           (map np_item
                (List.filter (fun s => py_in s (obs_setup_obsid self)) ss)))
  <-> exists s, s ∈ ss /\ s ∈ obs_setup_obsid self /\ x = PyNpStr (np_item s).
Proof.
  rewrite list_elem_of_fmap. unfold list_of_set. split.
  - intros (t & -> & Ht).
    apply elem_of_elements, elem_of_list_to_set, list_elem_of_fmap in Ht
      as (s & -> & Hs).
    apply elem_of_kept in Hs as [Hin Hobs]. now exists s.
  - intros (s & Hin & Hobs & ->). exists (np_item s). split; [reflexivity|].
    apply elem_of_elements, elem_of_list_to_set, list_elem_of_fmap.
    exists s. split; [reflexivity|]. now apply elem_of_kept.
Qed.

Lemma NoDup_np_items (l : list string) : NoDup (map PyNpStr (list_of_set l)).
Proof.
  apply NoDup_fmap_2.
  - intros x y H. now injection H.
  - unfold list_of_set. apply NoDup_elements.
Qed.

Lemma flag_entries_not_str (l : list pyval) :
  (exists v, v ∈ l /\ is_str v = false) ->
  exists msg, snd (flag_entries self l) = Raised (ValueError msg).
Proof.
  induction l as [|v l IH]; intros (x & Hin & Hx).
  - inversion Hin.
  - destruct v as [|s|s|n|l']; simpl; try (eexists; reflexivity).
    apply elem_of_cons in Hin as [->|Hin]; [discriminate|].
    destruct (IH (ex_intro _ x (conj Hin Hx))) as [msg Hmsg].
    destruct (flag_entries self l) as [out [flags|e]]; simpl in *;
      [discriminate|].
    exists msg. exact Hmsg.
Qed.


End AdminFacts.

Section AdminSamples.

Import Admin.
Local Open Scope string_scope.

(** Two runs are known; one request names a run twice and an unknown run. *)
Example check_obsID_run :
  _check_obsID {| obs_setup_obsid := ["001"; "002"]; silent := false |}
               (str_list ["002"; "007"; "002"])
  = (["WARNING: obsID 007 does not exist, ignore it"],
     Returned [PyNpStr "002"]).
Proof. vm_compute. reflexivity. Qed.

Example check_obsID_mixed_list :
  _check_obsID {| obs_setup_obsid := ["001"; "002"]; silent := true |}
               (PyList [PyStr "001"; PyInt 2])
  = ([], Raised (ValueError
                   "The given obsID should be a string or a list of string.")).
Proof. vm_compute. reflexivity. Qed.

(** The obsID [001] followed by one NUL character. *)
Definition nul_run : string := "001" ++ String Ascii.zero EmptyString.


End AdminSamples.

(** * Properties of get_cta_psf *)

Section GridFacts.

Import Plotting.
Local Open Scope R_scope.

Lemma Rltb_true (a b : R) : a < b -> Rltb a b = true.
Proof. intros H. unfold Rltb. destruct (Rlt_dec a b); [reflexivity|contradiction]. Qed.

Lemma Rltb_false (a b : R) : b <= a -> Rltb a b = false.
Proof. intros H. unfold Rltb. destruct (Rlt_dec a b); [lra|reflexivity]. Qed.

Lemma Reqb_refl (a : R) : Reqb a a = true.
Proof. unfold Reqb. destruct (Req_dec_T a a); [reflexivity|contradiction]. Qed.

Lemma Reqb_neq (a b : R) : a <> b -> Reqb a b = false.
Proof. intros H. unfold Reqb. destruct (Req_dec_T a b); [contradiction|reflexivity]. Qed.

Lemma ln10_pos : 0 < ln 10.
Proof. rewrite <- ln_1. apply ln_increasing; lra. Qed.

Lemma pow10_log10 (x : R) : 0 < x -> pow10 (log10 x) = x.
Proof.
  intros Hx. unfold pow10, log10, Rpower.
  replace (ln x / ln 10 * ln 10) with (ln x)
    by (field; apply Rgt_not_eq, ln10_pos).
  now apply exp_ln.
Qed.

Lemma pow10_lt (x y : R) : x < y -> pow10 x < pow10 y.
Proof.
  intros H. unfold pow10, Rpower. apply exp_increasing.
  apply Rmult_lt_compat_r; [apply ln10_pos|exact H].
Qed.

Lemma pow10_le (x y : R) : x <= y -> pow10 x <= pow10 y.
Proof.
  intros [H| ->]; [left; now apply pow10_lt|right; reflexivity].
Qed.

Lemma log10_lt (x y : R) : 0 < x -> x < y -> log10 x < log10 y.
Proof.
  intros Hx H. unfold log10.
  apply Rmult_lt_compat_r.
  - apply Rinv_0_lt_compat, ln10_pos.
  - now apply ln_increasing.
Qed.

Lemma log10_le (x y : R) : 0 < x -> x <= y -> log10 x <= log10 y.
Proof.
  intros Hx [H| ->]; [left; now apply log10_lt|right; reflexivity].
Qed.

(** The shape of a grid of [m + 2] points: the start, [m] inner points and
    the stop. *)
Lemma seq_ends (m : nat) : seq 0 (S (S m)) = 0%nat :: seq 1 m ++ [S m].
Proof.
  rewrite seq_S. reflexivity.
Qed.

Lemma linspace_ends (a b : R) (m : nat) :
  linspace a b (S (S m))
  = a :: map (grid_exponent a b m) (seq 1 m) ++ [b].
Proof.
  unfold linspace. rewrite seq_ends.
  replace (S (S m) - 1)%nat with (S m) by lia.
  cbn [map]. rewrite map_app. cbn [map].
  f_equal; [simpl; lra|]. f_equal.
  - apply map_ext_in. intros i Hi. apply in_seq in Hi.
    replace (Nat.eqb i (S m)) with false
      by (symmetry; apply Nat.eqb_neq; lia).
    now rewrite andb_false_r.
  - rewrite Nat.eqb_refl. reflexivity.
Qed.

Lemma logspace_ends (a b : R) (m : nat) :
  logspace a b (S (S m))
  = pow10 a :: map (fun i => pow10 (grid_exponent a b m i)) (seq 1 m)
    ++ [pow10 b].
Proof.
  unfold logspace. rewrite linspace_ends.
  cbn [map]. now rewrite map_app, map_map.
Qed.

Lemma logspace_length (a b : R) (n : nat) : length (logspace a b n) = n.
Proof. unfold logspace, linspace. now rewrite !length_map, length_seq. Qed.

(** Where the inner points lie. *)
Lemma grid_exponent_inside (a b : R) (m i : nat) :
  a < b -> (1 <= i <= m)%nat -> a < grid_exponent a b m i < b.
Proof.
  intros Hab Hi. unfold grid_exponent.
  assert (Hn : 0 < INR (S m)) by (apply lt_0_INR; lia).
  assert (H0 : 0 < INR i) by (apply lt_0_INR; lia).
  assert (H1 : INR i < INR (S m)) by (apply lt_INR; lia).
  assert (Hstep : 0 < (b - a) / INR (S m))
    by (apply Rdiv_lt_0_compat; lra).
  assert (Hfull : INR (S m) * ((b - a) / INR (S m)) = b - a)
    by (field; lra).
  split; nra.
Qed.

Lemma grid_exponent_reversed (a b : R) (m i : nat) :
  b <= a -> (1 <= i <= m)%nat -> b <= grid_exponent a b m i <= a.
Proof.
  intros Hab Hi. unfold grid_exponent.
  assert (Hn : 0 < INR (S m)) by (apply lt_0_INR; lia).
  assert (H0 : 0 < INR i) by (apply lt_0_INR; lia).
  assert (H1 : INR i < INR (S m)) by (apply lt_INR; lia).
  assert (Hinv : 0 < / INR (S m)) by now apply Rinv_0_lt_compat.
  assert (Hstep : 0 <= (a - b) / INR (S m))
    by (unfold Rdiv; nra).
  assert (Hfull : INR (S m) * ((a - b) / INR (S m)) = a - b)
    by (field; lra).
  replace ((b - a) / INR (S m)) with (- ((a - b) / INR (S m)))
    by (field; lra).
  split; nra.
Qed.

End GridFacts.

Section PSFFacts.

Import Plotting.
Local Open Scope R_scope.

Variable cubic_spline : list R -> list R -> R -> R.

Lemma Rltb_spec (a b : R) : Rltb a b = true <-> a < b.
Proof. unfold Rltb. destruct (Rlt_dec a b); split; intros; auto; discriminate. Qed.

Lemma strictly_inside_spec (emin emax e : R) :
  strictly_inside emin emax e = true <-> emin < e < emax.
Proof.
  unfold strictly_inside, Rgtb.
  rewrite andb_true_iff, !Rltb_spec. reflexivity.
Qed.

(** The range of the samples contains every sample. *)
Lemma range_lo_le (x0 : R) (xs : list R) (x : R) :
  In x (x0 :: xs) -> range_lo x0 xs <= x.
Proof.
  unfold range_lo. induction xs as [|y xs IH]; simpl.
  - intros [->|[]]. lra.
  - intros [->|[->|H]].
    + eapply Rle_trans; [apply Rmin_r|]. apply IH. now left.
    + apply Rmin_l.
    + eapply Rle_trans; [apply Rmin_r|]. apply IH. now right.
Qed.

Lemma range_hi_ge (x0 : R) (xs : list R) (x : R) :
  In x (x0 :: xs) -> x <= range_hi x0 xs.
Proof.
  unfold range_hi. induction xs as [|y xs IH]; simpl.
  - intros [->|[]]. lra.
  - intros [->|[->|H]].
    + eapply Rle_trans; [|apply Rmax_r]. apply IH. now left.
    + apply Rmax_l.
    + eapply Rle_trans; [|apply Rmax_r]. apply IH. now right.
Qed.

(** Masks and products over one array. *)
Lemma np_mask_map {A B : Type} (f : A -> B) (test : A -> bool) (l : list A) :
  np_mask (map f l) (map test l) = map f (List.filter test l).
Proof.
  induction l as [|x l IH]; simpl; [reflexivity|].
  destruct (test x); simpl; now rewrite IH.
Qed.

Lemma np_mask_filter {A : Type} (test : A -> bool) (l : list A) :
  np_mask l (map test l) = List.filter test l.
Proof.
  induction l as [|x l IH]; simpl; [reflexivity|].
  destruct (test x); simpl; now rewrite IH.
Qed.

Lemma np_mul_map {A : Type} (f g : A -> R) (l : list A) :
  np_mul (map f l) (map g l) = map (fun x => f x * g x) l.
Proof.
  induction l as [|x l IH]; simpl; [reflexivity|]. now rewrite IH.
Qed.

Lemma filter_none {A : Type} (test : A -> bool) (l : list A) :
  (forall x, In x l -> test x = false) -> List.filter test l = [].
Proof.
  induction l as [|x l IH]; intros H; simpl; [reflexivity|].
  rewrite (H x) by now left. apply IH. intros y Hy. apply H. now right.
Qed.

Lemma filter_all {A : Type} (test : A -> bool) (l : list A) :
  (forall x, In x l -> test x = true) -> List.filter test l = l.
Proof.
  induction l as [|x l IH]; intros H; simpl; [reflexivity|].
  rewrite (H x) by now left. f_equal. apply IH. intros y Hy. apply H. now right.
Qed.

Lemma existsb_none {A : Type} (test : A -> bool) (l : list A) :
  (forall x, In x l -> test x = false) -> existsb test l = false.
Proof.
  induction l as [|x l IH]; intros H; simpl; [reflexivity|].
  rewrite (H x) by now left. apply IH. intros y Hy. apply H. now right.
Qed.

(** A sum of powers over a non-empty array is positive. *)
Lemma sum_powers_pos (slope : R) (es : list R) :
  es <> [] -> 0 < np_sum (map (fun e => np_power e slope) es).
Proof.
  assert (Hnn : forall l, 0 <= np_sum (map (fun e => np_power e slope) l)).
  { induction l as [|e l IH]; cbn [map np_sum fold_right]; [lra|].
    pose proof (exp_pos (slope * ln e)) as He.
    fold (np_sum (map (fun e => np_power e slope) l)).
    unfold np_power at 1. unfold Rpower. lra. }
  destruct es as [|e es]; [contradiction|]. intros _.
  cbn [map np_sum fold_right].
  fold (np_sum (map (fun e => np_power e slope) es)).
  pose proof (exp_pos (slope * ln e)) as He. pose proof (Hnn es) as Hes.
  unfold np_power at 1. unfold Rpower. lra.
Qed.

(** Strictly increasing samples are all different. *)
Lemma increasing_no_duplicate (xs : list R) :
  increasing xs -> has_duplicate xs = false.
Proof.
  unfold increasing. induction 1 as [|x rest _ IH Hx]; [reflexivity|].
  cbn [has_duplicate]. rewrite IH, orb_false_r.
  apply existsb_none. intros y Hy.
  apply Reqb_neq. rewrite Forall_forall in Hx.
  apply list_elem_of_In, Hx in Hy. lra.
Qed.

(** The rows of bin centres raise nothing but [ValueError]. *)
Lemma bin_centres_raises (lo hi : list R) (e : exn) :
  bin_centres lo hi = Raised e -> exists msg, e = ValueError msg.
Proof.
  unfold bin_centres, np_add.
  destruct (Nat.eqb (length lo) (length hi)); [discriminate|].
  destruct lo as [|x [|x' lo]]; destruct hi as [|y [|y' hi]];
    try discriminate; intros H; injection H as <-; eexists; reflexivity.
Qed.

Lemma bin_centres_same_length (lo hi : list R) :
  length lo = length hi ->
  bin_centres lo hi
  = Returned (map (fun x => x / 2)
                  (map (fun p : R * R => fst p + snd p) (combine lo hi))).
Proof.
  intros H. unfold bin_centres, np_add. now rewrite H, Nat.eqb_refl.
Qed.

(** [interp1d] and the call of its result. *)
Lemma interp1d_cubic (x0 : R) (xs ys : list R) :
  length ys = length (x0 :: xs) ->
  (4 <= length (x0 :: xs))%nat ->
  increasing (x0 :: xs) ->
  interp1d cubic_spline (x0 :: xs) ys
  = Returned {| x_lo := range_lo x0 xs;
                x_hi := range_hi x0 xs;
                spline := cubic_spline (x0 :: xs) ys |}.
Proof.
  intros Hlen H4 Hinc. unfold interp1d.
  rewrite Hlen, Nat.eqb_refl. cbn [negb].
  replace (Nat.ltb (length (x0 :: xs)) 4) with false
    by (symmetry; apply Nat.ltb_ge; exact H4).
  now rewrite increasing_no_duplicate.
Qed.

(** Whatever [interp1d] raises is a [ValueError]. *)
Lemma interp1d_raises (xs ys : list R) (e : exn) :
  interp1d cubic_spline xs ys = Raised e -> exists msg, e = ValueError msg.
Proof.
  unfold interp1d.
  destruct (negb (Nat.eqb (length xs) (length ys)));
    [intros H; injection H as <-; eexists; reflexivity|].
  destruct xs as [|x0 xs]; [intros H; injection H as <-; eexists; reflexivity|].
  destruct (Nat.ltb (length (x0 :: xs)) 4);
    [intros H; injection H as <-; eexists; reflexivity|].
  destruct (has_duplicate (x0 :: xs)); [|discriminate].
  intros H; injection H as <-; eexists; reflexivity.
Qed.

Lemma interp1d_too_few (xs ys : list R) :
  (length xs < 4)%nat \/ length ys <> length xs ->
  exists msg, interp1d cubic_spline xs ys = Raised (ValueError msg).
Proof.
  intros H. unfold interp1d.
  destruct (Nat.eqb (length xs) (length ys)) eqn:E;
    cbn [negb]; [|eexists; reflexivity].
  apply Nat.eqb_eq in E.
  destruct H as [H|H]; [|now rewrite E in H].
  destruct xs as [|x0 xs]; [eexists; reflexivity|].
  apply Nat.ltb_lt in H. rewrite H. eexists; reflexivity.
Qed.

Lemma interp_call_raises (f : interpolant) (x_new : list R) (e : exn) :
  interp_call f x_new = Raised e -> exists msg, e = ValueError msg.
Proof.
  unfold interp_call.
  destruct (existsb _ x_new); [intros H; injection H as <-; eexists; reflexivity|].
  destruct (existsb _ x_new); [|discriminate].
  intros H; injection H as <-; eexists; reflexivity.
Qed.

Lemma interp_call_in_range (f : interpolant) (x_new : list R) :
  (forall x, In x x_new -> x_lo f <= x <= x_hi f) ->
  interp_call f x_new = Returned (map (spline f) x_new).
Proof.
  intros H. unfold interp_call.
  rewrite !existsb_none; [reflexivity| |].
  - intros x Hx. unfold Rgtb. apply Rltb_false. now apply H.
  - intros x Hx. apply Rltb_false. now apply H.
Qed.

(** The grid of the function: 1000 points from [emin] to [emax]. *)
Lemma e_itpl_ends (emin emax : R) :
  0 < emin -> 0 < emax ->
  logspace (log10 emin) (log10 emax) 1000
  = emin :: map (fun i => pow10 (grid_exponent (log10 emin) (log10 emax) 998 i))
                (seq 1 998)
    ++ [emax].
Proof.
  intros Hmin Hmax.
  change 1000%nat with (S (S 998)).
  rewrite logspace_ends, !pow10_log10 by assumption. reflexivity.
Qed.

Lemma inner_points_inside (emin emax : R) (i : nat) :
  0 < emin < emax -> (1 <= i <= 998)%nat ->
  emin < pow10 (grid_exponent (log10 emin) (log10 emax) 998 i) < emax.
Proof.
  intros [Hmin Hlt] Hi.
  destruct (grid_exponent_inside (log10 emin) (log10 emax) 998 i) as [Ha Hb];
    [now apply log10_lt|exact Hi|].
  apply pow10_lt in Ha, Hb.
  rewrite pow10_log10 in Ha, Hb by lra. split; assumption.
Qed.

Lemma inner_points_reversed (emin emax : R) (i : nat) :
  0 < emax <= emin -> (1 <= i <= 998)%nat ->
  emax <= pow10 (grid_exponent (log10 emin) (log10 emax) 998 i) <= emin.
Proof.
  intros [Hmax Hle] Hi.
  destruct (grid_exponent_reversed (log10 emin) (log10 emax) 998 i) as [Ha Hb];
    [now apply log10_le|exact Hi|].
  apply pow10_le in Ha, Hb.
  rewrite pow10_log10 in Ha, Hb by lra. split; assumption.
Qed.

Lemma in_e_itpl (emin emax e : R) :
  0 < emin -> 0 < emax ->
  In e (logspace (log10 emin) (log10 emax) 1000) ->
  e = emin
  \/ (exists i, (1 <= i <= 998)%nat
                /\ e = pow10 (grid_exponent (log10 emin) (log10 emax) 998 i))
  \/ e = emax.
Proof.
  intros Hmin Hmax. rewrite e_itpl_ends by assumption.
  intros [<-|H]; [now left|].
  apply in_app_or in H as [H|[<-|[]]]; [|now right; right].
  right; left. apply in_map_iff in H as (i & <- & Hi).
  apply in_seq in Hi. exists i. split; [lia|reflexivity].
Qed.

(** The grid stays between its two ends, whichever is the larger. *)
Lemma e_itpl_between (emin emax e : R) :
  0 < emin -> 0 < emax ->
  In e (logspace (log10 emin) (log10 emax) 1000) ->
  Rmin emin emax <= e <= Rmax emin emax.
Proof.
  intros Hmin Hmax He.
  pose proof (Rmin_l emin emax). pose proof (Rmin_r emin emax).
  pose proof (Rmax_l emin emax). pose proof (Rmax_r emin emax).
  apply in_e_itpl in He as [->|[(i & Hi & ->)| ->]]; try assumption;
    [lra| |lra].
  destruct (Rlt_le_dec emin emax) as [Hlt|Hle].
  - destruct (inner_points_inside emin emax i) as [Ha Hb]; [lra|exact Hi|].
    rewrite Rmin_left, Rmax_right by lra. lra.
  - destruct (inner_points_reversed emin emax i) as [Ha Hb]; [lra|exact Hi|].
    rewrite Rmin_right, Rmax_left by lra. lra.
Qed.

(** The two sums of the function over an array [e_itpl]. *)
Lemma masked_sums (F : R -> R) (emin emax slope : R) (e_itpl : list R) :
  let PSF_itpl := map (fun p => p * 2 * sqrt (2 * ln 2)) (map F e_itpl) in
  let weng := map (fun e => (Rgtb e emin && Rltb e emax)%bool) e_itpl in
  let inside := List.filter (strictly_inside emin emax) e_itpl in
  np_sum (np_mul (np_mask PSF_itpl weng)
                 (map (fun e => np_power e slope) (np_mask e_itpl weng)))
  = np_sum (map (fun e => F e * (2 * sqrt (2 * ln 2)) * np_power e slope)
                inside)
  /\ np_sum (map (fun e => np_power e slope) (np_mask e_itpl weng))
     = np_sum (map (fun e => np_power e slope) inside).
Proof.
  intros PSF_itpl weng inside. unfold PSF_itpl, weng, inside.
  change (fun e : R => (Rgtb e emin && Rltb e emax)%bool)
    with (strictly_inside emin emax).
  rewrite map_map, np_mask_map, np_mask_filter, np_mul_map.
  split; [|reflexivity].
  f_equal. apply map_ext. intros e. ring.
Qed.

(** The value of the function once the spline exists and the grid lies in
    its range. *)
Lemma get_cta_psf_in_range (t : irf_table) (th es : list R)
    (emin emax slope : R) :
  theta_mean t = Returned th ->
  eng_mean t = Returned es ->
  length (SIGMA_1 t) = length es ->
  (4 <= length es)%nat ->
  increasing es ->
  0 < emin -> 0 < emax ->
  (exists x, In x es /\ x <= Rmin emin emax) ->
  (exists x, In x es /\ Rmax emin emax <= x) ->
  let inside :=
    List.filter (strictly_inside emin emax)
                (logspace (log10 emin) (log10 emax) 1000) in
  get_cta_psf cubic_spline t emin emax slope
  = Returned
      (np_divide
         (np_sum (map (fun e => fwhm_at cubic_spline es (SIGMA_1 t) e
                                * np_power e slope)
                      inside))
         (np_sum (map (fun e => np_power e slope) inside))).
Proof.
  intros Hth Hes Hlen H4 Hinc Hmin Hmax
         (lo & Hlo & Hlo_le) (hi & Hhi & Hhi_ge) inside.
  assert (Hgrid : forall e,
             In e (logspace (log10 emin) (log10 emax) 1000) ->
             Rmin emin emax <= e <= Rmax emin emax)
    by (intros e He; now apply e_itpl_between).
  unfold get_cta_psf, fwhm_at. rewrite Hth, Hes. subst inside.
  remember (logspace (log10 emin) (log10 emax) 1000) as grid eqn:Eg.
  clear Eg.
  destruct es as [|x0 xs]; [simpl in H4; lia|].
  rewrite interp1d_cubic by assumption.
  rewrite interp_call_in_range.
  - cbn [spline].
    destruct (masked_sums (cubic_spline (x0 :: xs) (SIGMA_1 t))
                emin emax slope grid) as [Hnum Hden].
    cbv zeta in Hnum, Hden. rewrite Hnum, Hden. reflexivity.
  - cbn [x_lo x_hi]. intros e He.
    apply Hgrid in He.
    pose proof (range_lo_le x0 xs lo Hlo).
    pose proof (range_hi_ge x0 xs hi Hhi). lra.
Qed.

(** The mask keeps the 998 inner points of the grid and drops its ends. *)
Lemma inside_inner_points (emin emax : R) :
  0 < emin < emax ->
  List.filter (strictly_inside emin emax)
              (logspace (log10 emin) (log10 emax) 1000)
  = map (fun i => pow10 (grid_exponent (log10 emin) (log10 emax) 998 i))
        (seq 1 998).
Proof.
  intros [Hmin Hlt]. rewrite e_itpl_ends by lra.
  generalize (seq 1 998) (fun i => proj1 (in_seq 998 1 i)).
  intros inner Hinner.
  cbn [List.filter]. unfold strictly_inside at 1, Rgtb.
  rewrite (Rltb_false emin emin) by lra. cbn [andb].
  rewrite List.filter_app. cbn [List.filter].
  unfold strictly_inside at 2.
  rewrite (Rltb_false emax emax), andb_false_r, app_nil_r by lra.
  apply filter_all. intros e He.
  apply in_map_iff in He as (i & <- & Hi). apply Hinner in Hi.
  apply strictly_inside_spec, inner_points_inside; [lra|lia].
Qed.

Lemma inner_points_nonempty (f : nat -> R) : map f (seq 1 998) <> [].
Proof. change (seq 1 998) with (1%nat :: seq 2 997). discriminate. Qed.


(** With the ends swapped or equal, no grid point passes the mask. *)
Lemma get_cta_psf_no_point_inside (t : irf_table) (th es : list R)
    (emin emax slope : R) :
  theta_mean t = Returned th ->
  eng_mean t = Returned es ->
  length (SIGMA_1 t) = length es ->
  (4 <= length es)%nat ->
  increasing es ->
  0 < emax <= emin ->
  (exists x, In x es /\ x <= emax) ->
  (exists x, In x es /\ emin <= x) ->
  List.filter (strictly_inside emin emax)
              (logspace (log10 emin) (log10 emax) 1000) = []
  /\ get_cta_psf cubic_spline t emin emax slope = Returned NaN.
Proof.
  intros Hth Hes Hlen H4 Hinc [Hmax Hle] Hlo Hhi.
  assert (Hnone : List.filter (strictly_inside emin emax)
                    (logspace (log10 emin) (log10 emax) 1000) = []).
  { apply filter_none. intros e He.
    apply e_itpl_between in He; [|lra..].
    rewrite Rmax_left in He by lra.
    unfold strictly_inside, Rgtb. rewrite (Rltb_false emin e) by lra.
    reflexivity. }
  split; [exact Hnone|].
  rewrite (get_cta_psf_in_range t th es); try assumption; try lra.
  - rewrite Hnone. cbn [map np_sum fold_right].
    unfold np_divide. now rewrite Reqb_refl.
  - now rewrite Rmin_right by lra.
  - now rewrite Rmax_left by lra.
Qed.

(** Below the range of the samples the call of the spline raises. *)
Lemma range_lo_gt (c x0 : R) (xs : list R) :
  (forall x, In x (x0 :: xs) -> c < x) -> c < range_lo x0 xs.
Proof.
  unfold range_lo. induction xs as [|y xs IH]; intros H; simpl.
  - apply H. now left.
  - apply Rmin_glb_lt.
    + apply H. right. now left.
    + apply IH. intros x [->|Hx]; apply H; [now left|right; now right].
Qed.

Lemma get_cta_psf_below_range (t : irf_table) (th es : list R)
    (emin emax slope : R) :
  theta_mean t = Returned th ->
  eng_mean t = Returned es ->
  length (SIGMA_1 t) = length es ->
  (4 <= length es)%nat ->
  increasing es ->
  0 < emin -> 0 < emax ->
  (forall x, In x es -> emin < x) ->
  get_cta_psf cubic_spline t emin emax slope
  = Raised (ValueError "A value in x_new is below the interpolation range.").
Proof.
  intros Hth Hes Hlen H4 Hinc Hmin Hmax Hbelow.
  unfold get_cta_psf. rewrite Hth, Hes.
  destruct es as [|x0 xs]; [simpl in H4; lia|].
  rewrite interp1d_cubic by assumption.
  unfold interp_call. cbn [x_lo x_hi].
  rewrite e_itpl_ends by assumption. cbn [existsb].
  rewrite Rltb_true; [reflexivity|].
  now apply range_lo_gt.
Qed.


End PSFFacts.

(** * Properties of show_map *)

Section RenderFacts.

Import Plotting.
Local Open Scope R_scope.

Variable gauss_weight : R -> nat * nat -> nat * nat -> nat * nat -> R.

(** No smoothing width, no smoothing scale. *)
Lemma sigma_px_0 (reso : R) : sigma_px 0 reso = 0.
Proof. unfold sigma_px, Rdiv. now rewrite !Rmult_0_l. Qed.

Lemma gaussian_filter_0 (img : image) : gaussian_filter gauss_weight img 0 = img.
Proof. unfold gaussian_filter. rewrite Rltb_false; [reflexivity|lra]. Qed.

(** The filter is linear, so it maps zeros to zeros. *)
Lemma sum_row_zero (w : nat -> R) (l : nat) (row : list R) :
  Forall (fun p => p = 0) row -> sum_row w l row = 0.
Proof.
  intros H. revert l. induction H as [|p row -> _ IH]; intros l; simpl.
  - reflexivity.
  - rewrite IH. lra.
Qed.

Lemma sum_image_zero (w : nat * nat -> R) (k : nat) (img : image) :
  all_zero img -> sum_image w k img = 0.
Proof.
  intros H. revert k. induction H as [|row img Hrow _ IH]; intros k; simpl.
  - reflexivity.
  - rewrite IH, sum_row_zero by assumption. lra.
Qed.

Lemma imap_const_zero {A : Type} (f : nat -> A -> R) (l : list A) :
  (forall i x, f i x = 0) -> Forall (fun p => p = 0) (imap f l).
Proof.
  intros Hf. revert f Hf. induction l as [|x l IH]; intros f Hf.
  - constructor.
  - rewrite imap_cons. constructor; [apply Hf|].
    apply IH. intros i y. apply Hf.
Qed.

Lemma imap_rows_zero {A : Type} (f : nat -> A -> list R) (l : list A) :
  (forall i x, Forall (fun p => p = 0) (f i x)) -> all_zero (imap f l).
Proof.
  intros Hf. revert f Hf. induction l as [|x l IH]; intros f Hf.
  - constructor.
  - rewrite imap_cons. constructor; [apply Hf|].
    apply IH. intros i y. apply Hf.
Qed.

Lemma gaussian_blur_zero (img : image) (sigma : R) :
  all_zero img -> all_zero (gaussian_blur gauss_weight img sigma).
Proof.
  intros H. unfold gaussian_blur.
  apply imap_rows_zero. intros i row.
  apply imap_const_zero. intros j _.
  now apply sum_image_zero.
Qed.

Lemma gaussian_filter_zero (img : image) (sigma : R) :
  all_zero img -> all_zero (gaussian_filter gauss_weight img sigma).
Proof.
  intros H. unfold gaussian_filter.
  destruct (Rltb 1e-15 sigma); [now apply gaussian_blur_zero|assumption].
Qed.

(** The filter keeps the shape of the raster. *)
Lemma concat_imap_length (img : image) (f : nat -> nat -> R) :
  length (concat (imap (fun i row => imap (fun j (_ : R) => f i j) row) img))
  = length (concat img).
Proof.
  revert f. induction img as [|row img IH]; intros f; [reflexivity|].
  rewrite imap_cons. simpl. rewrite !length_app, length_imap.
  f_equal. apply (IH (fun i => f (S i))).
Qed.

Lemma gaussian_filter_has_pixels (img : image) (sigma : R) :
  has_pixels img -> has_pixels (gaussian_filter gauss_weight img sigma).
Proof.
  unfold has_pixels, gaussian_filter. intros H.
  destruct (Rltb 1e-15 sigma); [|assumption].
  unfold gaussian_blur. intros E.
  apply (f_equal (@length R)) in E.
  rewrite concat_imap_length in E.
  destruct (concat img); [contradiction|discriminate].
Qed.

Lemma scale_image_has_pixels (img : image) (norm : R) :
  has_pixels img -> has_pixels (scale_image img norm).
Proof.
  unfold has_pixels, scale_image. intros H E. apply H.
  apply (f_equal (@length R)) in E.
  assert (L : forall i : image,
             length (concat (map (map (fun p => p * norm)) i)) = length (concat i)).
  { induction i as [|r i IH]; [reflexivity|].
    simpl. now rewrite !length_app, length_map, IH. }
  rewrite L in E. destruct (concat img); [reflexivity|discriminate].
Qed.

Lemma scale_image_by_0 (img : image) : all_zero (scale_image img 0).
Proof.
  unfold all_zero, scale_image.
  apply Forall_map, Forall_forall. intros row _.
  apply Forall_map, Forall_forall. intros p _. simpl. lra.
Qed.

Lemma scale_image_zero (img : image) (norm : R) :
  all_zero img -> all_zero (scale_image img norm).
Proof.
  unfold all_zero, scale_image. intros H.
  apply Forall_map. eapply Forall_impl; [exact H|].
  intros row Hrow. simpl. apply Forall_map.
  eapply Forall_impl; [exact Hrow|].
  intros p ->. simpl. lra.
Qed.

Lemma processed_has_pixels (a : show_map_args) :
  has_pixels (hdu_data (mapfile a)) -> has_pixels (processed gauss_weight a).
Proof.
  intros H. unfold processed, smoothed.
  destruct (significance a).
  - now apply scale_image_has_pixels, gaussian_filter_has_pixels.
  - now apply gaussian_filter_has_pixels.
Qed.

Lemma concat_zero (img : image) :
  all_zero img -> Forall (fun p => p = 0) (concat img).
Proof.
  induction 1 as [|row img Hrow _ IH]; simpl.
  - constructor.
  - apply Forall_app. split; assumption.
Qed.

Lemma fold_Rmax_zero (ps : list R) :
  Forall (fun p => p = 0) ps -> fold_left Rmax ps 0 = 0.
Proof.
  induction 1 as [|p ps -> _ IH]; simpl; [reflexivity|].
  now rewrite Rmax_left by lra.
Qed.

Lemma fold_Rmin_zero (ps : list R) :
  Forall (fun p => p = 0) ps -> fold_left Rmin ps 0 = 0.
Proof.
  induction 1 as [|p ps -> _ IH]; simpl; [reflexivity|].
  now rewrite Rmin_left by lra.
Qed.

Lemma np_amax_zero (img : image) :
  has_pixels img -> all_zero img -> np_amax img = Returned 0.
Proof.
  unfold has_pixels, np_amax. intros Hp Hz.
  apply concat_zero in Hz.
  destruct (concat img) as [|p ps]; [contradiction|].
  inversion Hz as [|? ? -> Hps]; subst.
  now rewrite fold_Rmax_zero.
Qed.

Lemma np_amin_zero (img : image) :
  has_pixels img -> all_zero img -> np_amin img = Returned 0.
Proof.
  unfold has_pixels, np_amin. intros Hp Hz.
  apply concat_zero in Hz.
  destruct (concat img) as [|p ps]; [contradiction|].
  inversion Hz as [|? ? -> Hps]; subst.
  now rewrite fold_Rmin_zero.
Qed.

(** The run of [show_map] when the image it tests holds only zeros: the
    empty-map line is printed, nothing is drawn and nothing is saved. *)
Lemma show_map_empty (a : show_map_args) (w : world) :
  has_pixels (hdu_data (mapfile a)) ->
  all_zero (processed gauss_weight a) ->
  show_map gauss_weight a w
  = ({| stdout := (stdout w ++ boost_lines a) ++ [empty_line (outfile a)];
        axes := axes w;
        saved := saved w |}, Returned tt).
Proof.
  intros Hp Hz.
  apply processed_has_pixels in Hp.
  pose proof (np_amax_zero _ Hp Hz) as Hmax.
  pose proof (np_amin_zero _ Hp Hz) as Hmin.
  unfold show_map, boost_lines, bind, when, lift, ret, print.
  destruct a as [m o f cr cd ct cn pn pr pd gr gd psf mt bt [r0 r1] lg sg cm].
  simpl in *. rewrite Hmax, Hmin.
  destruct sg, r0, r1; simpl; rewrite ?Reqb_refl; simpl;
    rewrite <- ?app_assoc, ?app_nil_r; reflexivity.
Qed.

(** The run of [show_map] when the image it tests has a non-zero extreme:
    the plotting branch, with the colour range completed from the image. *)
Lemma show_map_plots (a : show_map_args) (w : world) (lo hi : R) :
  np_amin (processed gauss_weight a) = Returned lo ->
  np_amax (processed gauss_weight a) = Returned hi ->
  hi <> 0 \/ lo <> 0 ->
  show_map gauss_weight a w
  = plot_map a (processed gauss_weight a)
             (match fst (rangevalue a) with Some v => v | None => lo end)
             (match snd (rangevalue a) with Some v => v | None => hi end)
             {| stdout := stdout w ++ boost_lines a;
                axes := axes w;
                saved := saved w |}.
Proof.
  intros Hmin Hmax Hne.
  unfold show_map, boost_lines, bind, when, lift, ret, print.
  rewrite Hmin, Hmax.
  assert (Hw : {| stdout := stdout w ++ []; axes := axes w; saved := saved w |}
               = w) by (destruct w; simpl; now rewrite app_nil_r).
  assert (Hempty : (if Reqb hi 0 then Reqb lo 0 else false) = false).
  { destruct Hne as [H|H].
    - now rewrite (Reqb_neq hi 0).
    - rewrite (Reqb_neq lo 0) by assumption. now destruct (Reqb hi 0). }
  destruct (significance a), (fst (rangevalue a)), (snd (rangevalue a));
    simpl; rewrite ?Hw; destruct (Reqb hi 0); simpl in Hempty |- *;
    rewrite ?Hempty; simpl; rewrite <- ?app_assoc; reflexivity.
Qed.

Lemma processed_zero (a : show_map_args) :
  all_zero (hdu_data (mapfile a)) -> all_zero (processed gauss_weight a).
Proof.
  intros H. unfold processed, smoothed.
  destruct (significance a).
  - now apply scale_image_zero, gaussian_filter_zero.
  - now apply gaussian_filter_zero.
Qed.

Lemma smoothed_unsmoothed (a : show_map_args) :
  smoothing_FWHM a = 0 -> smoothed gauss_weight a = hdu_data (mapfile a).
Proof.
  intros H. unfold smoothed. rewrite H, sigma_px_0.
  apply gaussian_filter_0.
Qed.

(** C5.  With [smoothing_FWHM = 0] the pixel scale of the kernel is 0 and
    the smoothing step returns the raster it was given: the Gaussian filter
    with [sigma = 0] is the identity. *)
Theorem smoothing_fwhm_zero_is_identity (a : show_map_args) :
  smoothing_FWHM a = 0 ->
  sigma_px (smoothing_FWHM a) (Rabs (fst (cdelt (hdu_header (mapfile a))))) = 0
  /\ gaussian_filter gauss_weight (hdu_data (mapfile a)) 0 = hdu_data (mapfile a)
  /\ smoothed gauss_weight a = hdu_data (mapfile a).
Proof.
  intros H. split; [|split].
  - rewrite H. apply sigma_px_0.
  - apply gaussian_filter_0.
  - now apply smoothed_unsmoothed.
Qed.

Lemma lookup_map {A B : Type} (f : A -> B) (l : list A) (i : nat) :
  map f l !! i = option_map f (l !! i).
Proof.
  revert i. induction l as [|x l IH]; intros [|i]; simpl; auto.
Qed.

Lemma pixel_scale_image (img : image) (norm : R) (i j : nat) :
  pixel (scale_image img norm) i j
  = option_map (fun p => p * norm) (pixel img i j).
Proof.
  unfold pixel, scale_image. rewrite lookup_map.
  destruct (img !! i) as [row|]; simpl; [apply lookup_map|reflexivity].
Qed.

(** C2 (amended).  In significance mode every pixel of the smoothed raster
    is multiplied by [2 * sigma_px * sqrt(pi)], where [sigma_px] is the
    smoothing FWHM divided by [2 * sqrt(2 * ln 2)] and by the pixel size;
    the same product is taken when [sigma_px = 0], where the factor is 0. *)
Theorem significance_rescales_every_pixel (a : show_map_args) :
  significance a = true ->
  let reso := Rabs (fst (cdelt (hdu_header (mapfile a)))) in
  let s := smoothing_FWHM a / (2 * sqrt (2 * ln 2)) / reso in
  (forall i j : nat,
      pixel (processed gauss_weight a) i j
      = option_map (fun p => p * (2 * s * sqrt PI))
                   (pixel (smoothed gauss_weight a) i j))
  /\ (s = 0 -> 2 * s * sqrt PI = 0 /\ all_zero (processed gauss_weight a)).
Proof.
  intros Hsig reso s. split.
  - intros i j. unfold processed. rewrite Hsig.
    apply pixel_scale_image.
  - intros Hs. split; [rewrite Hs; ring|].
    unfold processed. rewrite Hsig.
    unfold significance_norm, sigma_px. fold reso. fold s.
    rewrite Hs. replace (2 * 0 * sqrt PI) with 0 by ring.
    apply scale_image_by_0.
Qed.

(** C9 (amended).  In significance mode with [smoothing_FWHM = 0] the factor
    is 0, the image that is tested holds only zeros whatever the finite
    pixels of the raster were, the empty-map branch is taken and no file is
    written. *)
Theorem significance_without_smoothing_blanks_map (a : show_map_args) :
  significance a = true ->
  smoothing_FWHM a = 0 ->
  has_pixels (hdu_data (mapfile a)) ->
  significance_norm
    (sigma_px (smoothing_FWHM a) (Rabs (fst (cdelt (hdu_header (mapfile a))))))
  = 0
  /\ processed gauss_weight a = scale_image (hdu_data (mapfile a)) 0
  /\ all_zero (processed gauss_weight a)
  /\ show_map gauss_weight a world0
     = ({| stdout := [boost_line_1; boost_line_2; empty_line (outfile a)];
           axes := [];
           saved := [] |}, Returned tt).
Proof.
  intros Hsig Hfwhm Hpix.
  assert (Hnorm : significance_norm
            (sigma_px (smoothing_FWHM a)
                      (Rabs (fst (cdelt (hdu_header (mapfile a)))))) = 0).
  { rewrite Hfwhm, sigma_px_0. unfold significance_norm. ring. }
  assert (Hproc : processed gauss_weight a = scale_image (hdu_data (mapfile a)) 0).
  { unfold processed. rewrite Hsig, Hnorm. now rewrite smoothed_unsmoothed. }
  assert (Hzero : all_zero (processed gauss_weight a)).
  { rewrite Hproc. apply scale_image_by_0. }
  repeat split; try assumption.
  rewrite (show_map_empty a world0 Hpix Hzero).
  unfold boost_lines. rewrite Hsig. reflexivity.
Qed.

(** C3 (amended).  For a raster of zeros the call raises nothing and writes
    no file; the empty-map warning is its last printed line, and its only
    one unless the significance step has printed its own two lines first. *)
Theorem all_zero_map_is_not_plotted (a : show_map_args) :
  has_pixels (hdu_data (mapfile a)) ->
  all_zero (hdu_data (mapfile a)) ->
  show_map gauss_weight a world0
  = ({| stdout := boost_lines a ++ [empty_line (outfile a)];
        axes := [];
        saved := [] |}, Returned tt)
  /\ is_warning (empty_line (outfile a)) = true
  /\ (significance a = false ->
      stdout (fst (show_map gauss_weight a world0)) = [empty_line (outfile a)]).
Proof.
  intros Hpix Hzero.
  pose proof (show_map_empty a world0 Hpix (processed_zero a Hzero)) as Hrun.
  simpl in Hrun. split; [exact Hrun|]. split.
  - reflexivity.
  - intros Hsig. rewrite Hrun. unfold boost_lines. now rewrite Hsig.
Qed.

(** The extremes of a raster bound its pixels. *)
Lemma fold_Rmax_upper (ps : list R) (p0 : R) :
  p0 <= fold_left Rmax ps p0
  /\ forall p, In p ps -> p <= fold_left Rmax ps p0.
Proof.
  revert p0. induction ps as [|q ps IH]; intros p0; simpl.
  - split; [lra|intros p []].
  - destruct (IH (Rmax p0 q)) as [H0 Hps].
    pose proof (Rmax_l p0 q). pose proof (Rmax_r p0 q).
    split; [lra|]. intros p [->|Hp]; [lra|now apply Hps].
Qed.

Lemma fold_Rmin_lower (ps : list R) (p0 : R) :
  fold_left Rmin ps p0 <= p0
  /\ forall p, In p ps -> fold_left Rmin ps p0 <= p.
Proof.
  revert p0. induction ps as [|q ps IH]; intros p0; simpl.
  - split; [lra|intros p []].
  - destruct (IH (Rmin p0 q)) as [H0 Hps].
    pose proof (Rmin_l p0 q). pose proof (Rmin_r p0 q).
    split; [lra|]. intros p [->|Hp]; [lra|now apply Hps].
Qed.

Lemma np_amax_upper (img : image) (hi p : R) :
  np_amax img = Returned hi -> In p (concat img) -> p <= hi.
Proof.
  unfold np_amax. destruct (concat img) as [|p0 ps]; [discriminate|].
  intros H Hp. injection H as <-.
  destruct (fold_Rmax_upper ps p0) as [H0 Hps].
  destruct Hp as [<-|Hp]; [exact H0|now apply Hps].
Qed.

Lemma np_amin_lower (img : image) (lo p : R) :
  np_amin img = Returned lo -> In p (concat img) -> lo <= p.
Proof.
  unfold np_amin. destruct (concat img) as [|p0 ps]; [discriminate|].
  intros H Hp. injection H as <-.
  destruct (fold_Rmin_lower ps p0) as [H0 Hps].
  destruct Hp as [<-|Hp]; [exact H0|now apply Hps].
Qed.

Lemma extremes_of_pixels (img : image) :
  has_pixels img ->
  exists lo hi, np_amin img = Returned lo /\ np_amax img = Returned hi.
Proof.
  unfold has_pixels, np_amin, np_amax. intros H.
  destruct (concat img) as [|p0 ps]; [contradiction|]. eauto.
Qed.

Lemma extremes_without_pixels (img : image) :
  concat img = [] ->
  (exists msg, np_amin img = Raised (ValueError msg))
  /\ (exists msg, np_amax img = Raised (ValueError msg)).
Proof.
  unfold np_amin, np_amax. intros ->. split; eexists; reflexivity.
Qed.

Lemma all_zero_of_concat (img : image) :
  (forall p, In p (concat img) -> p = 0) -> all_zero img.
Proof.
  unfold all_zero. induction img as [|row img IH]; intros H.
  - constructor.
  - constructor.
    + apply Forall_forall. intros p Hp. apply H. simpl.
      apply in_or_app. left. now apply list_elem_of_In.
    + apply IH. intros p Hp. apply H. simpl. apply in_or_app. now right.
Qed.

(** Both extremes are 0 only on a raster of zeros. *)
Lemma extremes_zero (img : image) :
  np_amin img = Returned 0 -> np_amax img = Returned 0 -> all_zero img.
Proof.
  intros Hmin Hmax. apply all_zero_of_concat. intros p Hp.
  pose proof (np_amin_lower img 0 p Hmin Hp).
  pose proof (np_amax_upper img 0 p Hmax Hp). lra.
Qed.

(** A raster with a pixel that is not 0 has an extreme that is not 0. *)
Lemma extremes_not_zero (img : image) :
  has_pixels img -> ~ all_zero img ->
  exists lo hi,
    np_amin img = Returned lo /\ np_amax img = Returned hi
    /\ (hi <> 0 \/ lo <> 0).
Proof.
  intros Hp Hnz.
  destruct (extremes_of_pixels img Hp) as (lo & hi & Hmin & Hmax).
  exists lo, hi. split; [exact Hmin|]. split; [exact Hmax|].
  destruct (Req_dec_T hi 0) as [Hhi|Hhi]; [|now left].
  destruct (Req_dec_T lo 0) as [Hlo|Hlo]; [|now right].
  exfalso. apply Hnz. subst. now apply extremes_zero.
Qed.

(** A raster without pixels stops the call before anything is drawn. *)
Lemma show_map_no_pixels (a : show_map_args) (w : world) :
  concat (processed gauss_weight a) = [] ->
  saved (fst (show_map gauss_weight a w)) = saved w
  /\ exists msg, snd (show_map gauss_weight a w) = Raised (ValueError msg).
Proof.
  intros Hnone.
  unfold show_map, bind, when, lift, ret, print, np_amin, np_amax.
  rewrite Hnone.
  destruct (significance a), (fst (rangevalue a)), (snd (rangevalue a));
    simpl; split; try reflexivity; eexists; reflexivity.
Qed.

End RenderFacts.

(** * Properties of the overlays *)

Section OverlayFacts.

Import Plotting.
Local Open Scope R_scope.

Lemma drawn_drawn (w : world) (l1 l2 : list artist) :
  drawn (drawn w l1) l2 = drawn w (l1 ++ l2).
Proof. unfold drawn. simpl. now rewrite app_assoc. Qed.

Lemma drawn_nil (w : world) : drawn w [] = w.
Proof. destruct w. unfold drawn. simpl. now rewrite app_nil_r. Qed.

Lemma add_artist_drawn (x : artist) (w : world) :
  add_artist x w = (drawn w [x], Returned tt).
Proof. reflexivity. Qed.

Lemma py_index_middle {A : Type} (pre : list A) (x : A) (post : list A) (w : world) :
  py_index (pre ++ x :: post) (length pre) w = (w, Returned x).
Proof. unfold py_index. now rewrite list_lookup_middle. Qed.

(** One turn of the loop at index [length pre], where the three lists have
    the entry [(name, ra, dec)]. *)
Lemma show_point_source_at (preN : list string) (preR preD : list (option R))
    (name : string) (ra dec : option R)
    (names : list string) (ras decs : list (option R)) (w : world) :
  length preR = length preN ->
  length preD = length preN ->
  show_point_source (preN ++ name :: names) (preR ++ ra :: ras)
                    (preD ++ dec :: decs) (length preN) w
  = (drawn w (entry_artists (name, (ra, dec))), Returned tt).
Proof.
  intros HR HD. unfold show_point_source, bind.
  rewrite <- HR at 1. rewrite py_index_middle.
  rewrite <- HD at 1. rewrite py_index_middle.
  destruct ra as [ra|], dec as [dec|]; simpl;
    try (now rewrite drawn_nil).
  unfold scatter, bind. simpl.
  rewrite py_index_middle. unfold add_artist, drawn, ps_artists. simpl.
  now rewrite <- app_assoc.
Qed.

Lemma show_point_sources_from (names : list string) :
  forall (ras decs : list (option R)) (preN : list string)
         (preR preD : list (option R)) (w : world),
    length preR = length preN ->
    length preD = length preN ->
    length ras = length names ->
    length decs = length names ->
    for_each (seq (length preN) (length names))
             (show_point_source (preN ++ names) (preR ++ ras) (preD ++ decs)) w
    = (drawn w (flat_map entry_artists (combine names (combine ras decs))),
       Returned tt).
Proof.
  induction names as [|name names IH];
    intros ras decs preN preR preD w HR HD Hras Hdecs.
  - simpl. now rewrite drawn_nil.
  - destruct ras as [|ra ras]; [discriminate|].
    destruct decs as [|dec decs]; [discriminate|].
    simpl in Hras, Hdecs.
    cbn [length seq for_each combine flat_map]. unfold bind at 1.
    rewrite show_point_source_at by assumption.
    replace (preN ++ name :: names) with ((preN ++ [name]) ++ names)
      by now rewrite <- app_assoc.
    replace (preR ++ ra :: ras) with ((preR ++ [ra]) ++ ras)
      by now rewrite <- app_assoc.
    replace (preD ++ dec :: decs) with ((preD ++ [dec]) ++ decs)
      by now rewrite <- app_assoc.
    replace (S (length preN)) with (length (preN ++ [name]))
      by (rewrite length_app; simpl; lia).
    rewrite IH.
    + now rewrite drawn_drawn.
    + rewrite !length_app. simpl. lia.
    + rewrite !length_app. simpl. lia.
    + lia.
    + lia.
Qed.

(** The loop over the point sources, for parallel lists. *)
Lemma show_point_sources_adds (names : list string)
    (ras decs : list (option R)) :
  length ras = length names ->
  length decs = length names ->
  adds (show_point_sources names ras decs)
       (flat_map entry_artists (combine names (combine ras decs))).
Proof.
  intros Hras Hdecs w. unfold show_point_sources.
  apply (show_point_sources_from names ras decs [] [] [] w); auto.
Qed.

(** What the entries put on the axes are point-source artists with text
    anchors that can be drawn, and no pointing artist is among them. *)
Lemma entry_artists_kind (l : list (string * (option R * option R))) :
  List.filter is_point_source_artist (flat_map entry_artists l)
  = flat_map entry_artists l
  /\ List.filter is_pointing_artist (flat_map entry_artists l) = []
  /\ forallb text_anchor_ok (flat_map entry_artists l) = true.
Proof.
  induction l as [|[name [ra dec]] l (IH1 & IH2 & IH3)];
    [repeat split|].
  cbn [flat_map]. rewrite !List.filter_app, forallb_app, IH1, IH2, IH3.
  destruct ra as [ra|], dec as [dec|]; repeat split.
Qed.

Lemma background_kind (l : list artist) :
  forallb background l = true ->
  List.filter is_point_source_artist l = []
  /\ List.filter is_pointing_artist l = []
  /\ forallb text_anchor_ok l = true.
Proof.
  induction l as [|x l IH]; [repeat split|].
  cbn [forallb List.filter]. unfold background at 1.
  rewrite !andb_true_iff, !negb_true_iff.
  intros [[[Hps Hptg] Hanchor] Hl].
  destruct (IH Hl) as (IH1 & IH2 & IH3).
  rewrite Hps, Hptg, Hanchor, IH1, IH2, IH3. repeat split.
Qed.

(** Steps that add artists, one after the other. *)
Lemma adds_then {A : Type} (m : M unit) (l : list artist) (k : M A) (w : world) :
  adds m l -> bind m (fun _ => k) w = k (drawn w l).
Proof. intros H. unfold bind. now rewrite H. Qed.

Lemma adds_add_artist (x : artist) : adds (add_artist x) [x].
Proof. intros w. reflexivity. Qed.

Lemma adds_nothing : adds (ret tt) [].
Proof. intros w. unfold ret. now rewrite drawn_nil. Qed.

(** The region, the centre and the PSF glyph always add their artists. *)
Lemma show_t500_adds (a : show_map_args) :
  exists l, adds (show_t500 a) l /\ forallb background l = true.
Proof.
  unfold show_t500.
  destruct (cluster_t500 a) as [r|], (cluster_ra a) as [ra|],
    (cluster_dec a) as [d|];
    try (exists []; split; [apply adds_nothing|reflexivity]).
  eexists. split; [|shelve].
  intros w. unfold bind, add_artist, drawn. cbn [fst snd stdout axes saved].
  rewrite <- app_assoc. reflexivity.
  Unshelve. reflexivity.
Qed.

Lemma show_center_adds (a : show_map_args) :
  exists l, adds (show_center a) l /\ forallb background l = true.
Proof.
  unfold show_center.
  destruct (cluster_ra a) as [ra|], (cluster_dec a) as [d|];
    try (exists []; split; [apply adds_nothing|reflexivity]).
  eexists. split; [|shelve].
  intros w. unfold bind, scatter, add_artist, drawn.
  cbn [coord_size Nat.eqb fst snd stdout axes saved].
  rewrite <- app_assoc. reflexivity.
  Unshelve. reflexivity.
Qed.

Lemma show_PSF_adds (wcs_map : wcs_t) (psf : option R) :
  exists l, adds (show_PSF wcs_map psf) l /\ forallb background l = true.
Proof.
  unfold show_PSF.
  destruct psf as [psf|];
    [|exists []; split; [apply adds_nothing|reflexivity]].
  eexists. split; [|shelve].
  intros w. unfold bind, add_artist, drawn. cbn [fst snd stdout axes saved].
  rewrite <- app_assoc. reflexivity.
  Unshelve. reflexivity.
Qed.

(** The pointing: a pair of floats, and two lists. *)
Lemma show_pointing_pair (a : show_map_args) (ra dec : R) :
  ptg_ra a = CNum ra -> ptg_dec a = CNum dec ->
  adds (show_pointing a)
       [ Scatter (CNum ra) (CNum dec) "x" "white" 100;
         Text (CNum ra) (CNum (dec + 0.2)) "Pointing" "white" ].
Proof.
  intros Hra Hdec w. unfold show_pointing. rewrite Hra, Hdec.
  unfold when, scatter, bind, try_except, add_artist, drawn. simpl.
  now rewrite <- app_assoc.
Qed.

Lemma show_pointing_lists (a : show_map_args) (ra0 dec0 : R)
    (ras decs : list R) :
  ptg_ra a = CList (ra0 :: ras) -> ptg_dec a = CList (dec0 :: decs) ->
  length ras = length decs ->
  adds (show_pointing a)
       [ Scatter (CList (ra0 :: ras)) (CList (dec0 :: decs)) "x" "white" 100;
         Text (CNum ra0) (CNum (dec0 + 0.2)) "Pointings" "white" ].
Proof.
  intros Hra Hdec Hlen w. unfold show_pointing. rewrite Hra, Hdec.
  unfold when, scatter, bind, try_except, add_artist, drawn. simpl.
  rewrite Hlen, Nat.eqb_refl. simpl.
  now rewrite <- app_assoc.
Qed.

Lemma show_pointing_adds (a : show_map_args) :
  pointing_ok (ptg_ra a) (ptg_dec a) = true ->
  exists l,
    adds (show_pointing a) l
    /\ List.filter is_point_source_artist l = []
    /\ forallb text_anchor_ok l = true.
Proof.
  intros Hok.
  destruct (ptg_ra a) as [|ra|[|ra0 ras]] eqn:Hra,
           (ptg_dec a) as [|dec|[|dec0 decs]] eqn:Hdec;
    cbn [pointing_ok] in Hok; try discriminate;
    try (exists []; split; [|split; reflexivity];
         intros w; unfold show_pointing; rewrite Hra, Hdec;
         apply adds_nothing).
  - eexists. split; [exact (show_pointing_pair a ra dec Hra Hdec)|].
    split; reflexivity.
  - apply Nat.eqb_eq in Hok.
    eexists. split; [exact (show_pointing_lists a ra0 dec0 ras decs
                              Hra Hdec Hok)|].
    split; reflexivity.
Qed.

(** The plotting branch when every overlay adds its artists: the figure is
    the image, the overlays in the order of the source and the four labels,
    and it is saved once. *)
Lemma plot_map_run (a : show_map_args) (img : image) (vmin vmax : R)
    (out : list string) (l1 l2 l3 l4 l5 : list artist) :
  adds (show_t500 a) l1 ->
  adds (show_pointing a) l2 ->
  adds (show_center a) l3 ->
  adds (show_point_sources (ps_name a) (ps_ra a) (ps_dec a)) l4 ->
  adds (show_PSF (hdu_header (mapfile a)) (PSF a)) l5 ->
  forallb text_anchor_ok l1 = true ->
  forallb text_anchor_ok l2 = true ->
  forallb text_anchor_ok l3 = true ->
  forallb text_anchor_ok l4 = true ->
  forallb text_anchor_ok l5 = true ->
  let figure :=
    Imshow img (cmap a) (if logscale a then SymLogNorm 1 else NormLinear)
           vmin vmax
    :: l1 ++ l2 ++ l3 ++ l4 ++ l5
       ++ [ XLabel "R.A. (deg)"; YLabel "Dec (deg)";
            Title (maptitle a); Colorbar (bartitle a) ] in
  plot_map a img vmin vmax {| stdout := out; axes := []; saved := [] |}
  = ({| stdout := out; axes := figure; saved := [(outfile a, figure)] |},
     Returned tt).
Proof.
  intros H1 H2 H3 H4 H5 A1 A2 A3 A4 A5 figure. unfold plot_map.
  rewrite (adds_then _ _ _ _ (adds_add_artist _)).
  rewrite (adds_then _ _ _ _ H1), (adds_then _ _ _ _ H2),
    (adds_then _ _ _ _ H3), (adds_then _ _ _ _ H4), (adds_then _ _ _ _ H5).
  do 4 rewrite (adds_then _ _ _ _ (adds_add_artist _)).
  rewrite !drawn_drawn. unfold drawn, savefig. cbn [stdout axes saved].
  rewrite !app_nil_l.
  assert (Hfig : ([Imshow img (cmap a)
                     (if logscale a then SymLogNorm 1 else NormLinear)
                     vmin vmax]
                  ++ l1 ++ l2 ++ l3 ++ l4 ++ l5
                  ++ [XLabel "R.A. (deg)"] ++ [YLabel "Dec (deg)"]
                  ++ [Title (maptitle a)] ++ [Colorbar (bartitle a)])
                 = figure) by reflexivity.
  rewrite Hfig.
  assert (Hok : forallb text_anchor_ok figure = true).
  { unfold figure. cbn [forallb text_anchor_ok andb].
    rewrite !forallb_app, A1, A2, A3, A4, A5. reflexivity. }
  rewrite Hok. reflexivity.
Qed.

(** Steps that return. *)
Lemma bind_returned {A B : Type} (m : M A) (k : A -> M B) (w w' : world)
    (b : B) :
  bind m k w = (w', Returned b) ->
  exists w1 a, m w = (w1, Returned a) /\ k a w1 = (w', Returned b).
Proof.
  unfold bind. destruct (m w) as [w1 [a|e]]; [eauto|discriminate].
Qed.

Lemma drawn_inj (w : world) (l1 l2 : list artist) :
  drawn w l1 = drawn w l2 -> l1 = l2.
Proof.
  unfold drawn. intros H. injection H as H. now apply app_inv_head in H.
Qed.

(** Steps that are quiet. *)
Lemma quiet_ret {A : Type} (Q : artist -> bool) (a : A) : quiet Q (ret a).
Proof. intros w. exists []. split; [apply eq_sym, drawn_nil|reflexivity]. Qed.

Lemma quiet_lift {A : Type} (Q : artist -> bool) (o : outcome A) :
  quiet Q (lift o).
Proof. intros w. exists []. split; [apply eq_sym, drawn_nil|reflexivity]. Qed.

Lemma quiet_raise {A : Type} (Q : artist -> bool) (e : exn) :
  quiet Q (@raise A e).
Proof. intros w. exists []. split; [apply eq_sym, drawn_nil|reflexivity]. Qed.

Lemma quiet_add_artist (Q : artist -> bool) (x : artist) :
  Q x = true -> quiet Q (add_artist x).
Proof.
  intros H w. exists [x]. split; [reflexivity|]. cbn [forallb]. now rewrite H.
Qed.

Lemma quiet_bind {A B : Type} (Q : artist -> bool) (m : M A) (k : A -> M B) :
  quiet Q m -> (forall a, quiet Q (k a)) -> quiet Q (bind m k).
Proof.
  intros Hm Hk w. unfold bind.
  destruct (Hm w) as (l & Hl & Ql).
  destruct (m w) as [w1 [a|e]]; cbn [fst] in *; subst w1.
  - destruct (Hk a (drawn w l)) as (l' & Hl' & Ql').
    rewrite Hl', drawn_drawn. exists (l ++ l')%list. split; [reflexivity|].
    now rewrite forallb_app, Ql, Ql'.
  - now exists l.
Qed.

Lemma quiet_try_except {A : Type} (Q : artist -> bool) (m h : M A) :
  quiet Q m -> quiet Q h -> quiet Q (try_except m h).
Proof.
  intros Hm Hh w. unfold try_except.
  destruct (Hm w) as (l & Hl & Ql).
  destruct (m w) as [w1 [a|e]]; cbn [fst] in *; subst w1.
  - now exists l.
  - destruct (Hh (drawn w l)) as (l' & Hl' & Ql').
    rewrite Hl', drawn_drawn. exists (l ++ l')%list. split; [reflexivity|].
    now rewrite forallb_app, Ql, Ql'.
Qed.

Lemma quiet_when (Q : artist -> bool) (b : bool) (m : M unit) :
  quiet Q m -> quiet Q (when b m).
Proof. intros Hm. destruct b; [exact Hm|apply quiet_ret]. Qed.

Lemma quiet_scatter (Q : artist -> bool) (x y : coord)
    (marker color : string) (s : R) :
  Q (Scatter x y marker color s) = true ->
  quiet Q (scatter x y marker color s).
Proof.
  intros H. unfold scatter. destruct (Nat.eqb _ _);
    [now apply quiet_add_artist|apply quiet_raise].
Qed.

(** The pointing overlay adds no point-source artist, however it ends. *)
Lemma show_pointing_quiet (a : show_map_args) :
  quiet (fun x => negb (is_point_source_artist x)) (show_pointing a).
Proof.
  unfold show_pointing. apply quiet_when.
  apply quiet_bind; [now apply quiet_scatter|intros _].
  apply quiet_try_except.
  - apply quiet_bind; [apply quiet_lift|intros y].
    now apply quiet_add_artist.
  - apply quiet_bind; [apply quiet_lift|intros x0].
    apply quiet_bind; [apply quiet_lift|intros y0].
    now apply quiet_add_artist.
Qed.

Lemma filter_none_of (Q : artist -> bool) (l : list artist) :
  forallb (fun x => negb (Q x)) l = true -> List.filter Q l = [].
Proof.
  induction l as [|x l IH]; [reflexivity|].
  cbn [forallb List.filter]. rewrite andb_true_iff, negb_true_iff.
  intros [Hx Hl]. rewrite Hx. now apply IH.
Qed.

(** What the pointing overlay has added when it returns. *)
Lemma show_pointing_returned (a : show_map_args) (w w1 : world) :
  show_pointing a w = (w1, Returned tt) ->
  (forall ra dec : R,
      ptg_ra a = CNum ra -> ptg_dec a = CNum dec ->
      w1 = drawn w [ Scatter (CNum ra) (CNum dec) "x" "white" 100;
                     Text (CNum ra) (CNum (dec + 0.2)) "Pointing" "white" ])
  /\ (forall ras decs : list R,
        ptg_ra a = CList ras -> ptg_dec a = CList decs ->
        exists ra0 dec0 : R,
          head ras = Some ra0 /\ head decs = Some dec0
          /\ w1 = drawn w [ Scatter (CList ras) (CList decs) "x" "white" 100;
                            Text (CNum ra0) (CNum (dec0 + 0.2))
                                 "Pointings" "white" ]).
Proof.
  intros H. split.
  - intros ra dec Hra Hdec.
    rewrite (show_pointing_pair a ra dec Hra Hdec w) in H.
    now injection H as <-.
  - intros ras decs Hra Hdec.
    destruct ras as [|ra0 ras], decs as [|dec0 decs];
      try (exfalso; unfold show_pointing in H; rewrite Hra, Hdec in H;
           revert H;
           unfold when, scatter, bind, try_except, add_artist, raise, lift;
           simpl; discriminate).
    destruct (Nat.eqb (length ras) (length decs)) eqn:Hlen.
    + apply Nat.eqb_eq in Hlen.
      rewrite (show_pointing_lists a ra0 dec0 ras decs Hra Hdec Hlen w) in H.
      injection H as <-. now exists ra0, dec0.
    + exfalso. unfold show_pointing in H. rewrite Hra, Hdec in H.
      revert H.
      unfold when, scatter, bind, try_except, add_artist, raise, lift.
      simpl. rewrite Hlen. discriminate.
Qed.

(** What the loop over the point sources has added when it returns. *)
Lemma show_point_sources_returned_from (names : list string) :
  forall (ras decs : list (option R)) (preN : list string)
         (preR preD : list (option R)) (w w1 : world),
    length preR = length preN ->
    length preD = length preN ->
    for_each (seq (length preN) (length names))
             (show_point_source (preN ++ names) (preR ++ ras) (preD ++ decs)) w
    = (w1, Returned tt) ->
    w1 = drawn w (flat_map entry_artists (combine names (combine ras decs))).
Proof.
  induction names as [|name names IH];
    intros ras decs preN preR preD w w1 HR HD H.
  - cbn [length seq for_each] in H. unfold ret in H. injection H as <-.
    cbn [combine flat_map]. now rewrite drawn_nil.
  - cbn [length seq for_each] in H.
    apply bind_returned in H as (w2 & [] & Hbody & Hrest).
    destruct ras as [|ra ras].
    { exfalso. revert Hbody. unfold show_point_source, bind, py_index.
      rewrite app_nil_r, lookup_ge_None_2 by lia. discriminate. }
    destruct decs as [|dec decs].
    { exfalso. revert Hbody. unfold show_point_source, bind.
      rewrite <- HR at 1. rewrite py_index_middle.
      unfold py_index. rewrite app_nil_r, lookup_ge_None_2 by lia.
      discriminate. }
    rewrite show_point_source_at in Hbody by assumption.
    injection Hbody as <-.
    replace (preN ++ name :: names) with ((preN ++ [name]) ++ names) in Hrest
      by now rewrite <- app_assoc.
    replace (preR ++ ra :: ras) with ((preR ++ [ra]) ++ ras) in Hrest
      by now rewrite <- app_assoc.
    replace (preD ++ dec :: decs) with ((preD ++ [dec]) ++ decs) in Hrest
      by now rewrite <- app_assoc.
    replace (S (length preN)) with (length (preN ++ [name])) in Hrest
      by (rewrite length_app; simpl; lia).
    apply IH in Hrest.
    + rewrite Hrest, drawn_drawn. reflexivity.
    + rewrite !length_app. simpl. lia.
    + rewrite !length_app. simpl. lia.
Qed.

Lemma show_point_sources_returned (names : list string)
    (ras decs : list (option R)) (w w1 : world) :
  show_point_sources names ras decs w = (w1, Returned tt) ->
  w1 = drawn w (flat_map entry_artists (combine names (combine ras decs))).
Proof.
  unfold show_point_sources.
  apply (show_point_sources_returned_from names ras decs [] [] []);
    reflexivity.
Qed.

(** The plotting branch when it returns: every overlay has returned, and the
    figure that is saved is what they have added, in the order of the
    source, between the image and the four labels. *)
Lemma plot_map_returned (a : show_map_args) (img : image) (vmin vmax : R)
    (out : list string) (w : world) :
  plot_map a img vmin vmax {| stdout := out; axes := []; saved := [] |}
  = (w, Returned tt) ->
  exists (wa : world) (l1 l2 l3 l5 : list artist),
    show_pointing a wa = (drawn wa l2, Returned tt)
    /\ forallb background l1 = true
    /\ forallb background l3 = true
    /\ forallb background l5 = true
    /\ List.filter is_point_source_artist l2 = []
    /\ w = (let figure :=
              Imshow img (cmap a)
                     (if logscale a then SymLogNorm 1 else NormLinear)
                     vmin vmax
              :: l1 ++ l2 ++ l3
                 ++ flat_map entry_artists
                      (combine (ps_name a) (combine (ps_ra a) (ps_dec a)))
                 ++ l5
                 ++ [ XLabel "R.A. (deg)"; YLabel "Dec (deg)";
                      Title (maptitle a); Colorbar (bartitle a) ] in
            {| stdout := out; axes := figure;
               saved := [(outfile a, figure)] |}).
Proof.
  intros H. unfold plot_map in H.
  destruct (show_t500_adds a) as (l1 & H1 & B1).
  destruct (show_center_adds a) as (l3 & H3 & B3).
  destruct (show_PSF_adds (hdu_header (mapfile a)) (PSF a)) as (l5 & H5 & B5).
  rewrite (adds_then _ _ _ _ (adds_add_artist _)) in H.
  rewrite (adds_then _ _ _ _ H1) in H.
  apply bind_returned in H as (w2 & [] & Hptg & H).
  match type of Hptg with show_pointing a ?wa = _ =>
    destruct (show_pointing_quiet a wa) as (l2 & Hl2 & Q2);
    rewrite Hptg in Hl2; cbn [fst] in Hl2; subst w2;
    exists wa, l1, l2, l3, l5
  end.
  split; [exact Hptg|].
  split; [exact B1|]. split; [exact B3|]. split; [exact B5|].
  split; [now apply filter_none_of|].
  rewrite (adds_then _ _ _ _ H3) in H.
  apply bind_returned in H as (w4 & [] & Hps & H).
  apply show_point_sources_returned in Hps. subst w4.
  rewrite (adds_then _ _ _ _ H5) in H.
  do 4 rewrite (adds_then _ _ _ _ (adds_add_artist _)) in H.
  rewrite !drawn_drawn in H. unfold drawn, savefig in H.
  cbn [stdout axes saved] in H. rewrite !app_nil_l in H.
  match type of H with (if ?c then _ else _) = _ => destruct c end;
    [|discriminate].
  injection H as <-. reflexivity.
Qed.

Section WholeRun.

Variable gauss_weight : R -> nat * nat -> nat * nat -> nat * nat -> R.

(** The run of [show_map] on a map that is plotted, with a pointing overlay
    that adds [l2] and parallel point-source lists. *)
Lemma show_map_figure (a : show_map_args) (l2 : list artist) :
  has_pixels (hdu_data (mapfile a)) ->
  ~ all_zero (processed gauss_weight a) ->
  adds (show_pointing a) l2 ->
  forallb text_anchor_ok l2 = true ->
  length (ps_ra a) = length (ps_name a) ->
  length (ps_dec a) = length (ps_name a) ->
  exists (vmin vmax : R) (l1 l3 l5 : list artist),
    forallb background l1 = true
    /\ forallb background l3 = true
    /\ forallb background l5 = true
    /\ show_map gauss_weight a world0
       = (let figure :=
            Imshow (processed gauss_weight a) (cmap a)
                   (if logscale a then SymLogNorm 1 else NormLinear) vmin vmax
            :: l1 ++ l2 ++ l3
               ++ flat_map entry_artists
                    (combine (ps_name a) (combine (ps_ra a) (ps_dec a)))
               ++ l5
               ++ [ XLabel "R.A. (deg)"; YLabel "Dec (deg)";
                    Title (maptitle a); Colorbar (bartitle a) ] in
          ({| stdout := boost_lines a; axes := figure;
              saved := [(outfile a, figure)] |}, Returned tt)).
Proof.
  intros Hpix Hnz H2 A2 Hras Hdecs.
  destruct (extremes_not_zero _ (processed_has_pixels gauss_weight a Hpix) Hnz)
    as (lo & hi & Hmin & Hmax & Hne).
  destruct (show_t500_adds a) as (l1 & H1 & B1).
  destruct (show_center_adds a) as (l3 & H3 & B3).
  destruct (show_PSF_adds (hdu_header (mapfile a)) (PSF a)) as (l5 & H5 & B5).
  pose proof (show_point_sources_adds _ _ _ Hras Hdecs) as H4.
  destruct (entry_artists_kind
              (combine (ps_name a) (combine (ps_ra a) (ps_dec a))))
    as (_ & _ & A4).
  destruct (background_kind l1 B1) as (_ & _ & A1).
  destruct (background_kind l3 B3) as (_ & _ & A3).
  destruct (background_kind l5 B5) as (_ & _ & A5).
  exists (match fst (rangevalue a) with Some v => v | None => lo end),
         (match snd (rangevalue a) with Some v => v | None => hi end),
         l1, l3, l5.
  split; [exact B1|]. split; [exact B3|]. split; [exact B5|].
  rewrite (show_map_plots gauss_weight a world0 lo hi Hmin Hmax Hne).
  cbn [world0 stdout axes saved app].
  now apply plot_map_run.
Qed.

(** A call that is plotted, with pointing arguments the overlay accepts and
    parallel point-source lists, returns and saves one figure. *)
Lemma show_map_returns (a : show_map_args) :
  has_pixels (hdu_data (mapfile a)) ->
  ~ all_zero (processed gauss_weight a) ->
  pointing_ok (ptg_ra a) (ptg_dec a) = true ->
  length (ps_ra a) = length (ps_name a) ->
  length (ps_dec a) = length (ps_name a) ->
  exists figure,
    show_map gauss_weight a world0
    = ({| stdout := boost_lines a; axes := figure;
          saved := [(outfile a, figure)] |}, Returned tt).
Proof.
  intros Hpix Hnz Hok Hras Hdecs.
  destruct (show_pointing_adds a Hok) as (l2 & H2 & _ & A2).
  destruct (show_map_figure a l2 Hpix Hnz H2 A2 Hras Hdecs)
    as (vmin & vmax & l1 & l3 & l5 & _ & _ & _ & Hrun).
  cbv zeta in Hrun. eexists. exact Hrun.
Qed.

(** A call that has saved a figure went through the plotting branch. *)
Lemma show_map_saved (a : show_map_args) (w : world) (figure : list artist) :
  show_map gauss_weight a world0 = (w, Returned tt) ->
  saved w = [(outfile a, figure)] ->
  exists vmin vmax,
    plot_map a (processed gauss_weight a) vmin vmax
             {| stdout := boost_lines a; axes := []; saved := [] |}
    = (w, Returned tt).
Proof.
  intros Hrun Hsaved.
  destruct (concat (processed gauss_weight a)) as [|p0 ps] eqn:Ec.
  { destruct (show_map_no_pixels gauss_weight a world0 Ec) as (_ & msg & Hmsg).
    rewrite Hrun in Hmsg. discriminate. }
  assert (Hp : has_pixels (processed gauss_weight a))
    by (unfold has_pixels; rewrite Ec; discriminate).
  destruct (extremes_of_pixels _ Hp) as (lo & hi & Hmin & Hmax).
  assert (Hne : hi <> 0 \/ lo <> 0).
  { destruct (Req_dec_T hi 0) as [Hhi|Hhi]; [|now left].
    destruct (Req_dec_T lo 0) as [Hlo|Hlo]; [|now right].
    exfalso. subst hi lo.
    assert (Hnone : saved (fst (show_map gauss_weight a world0)) = []).
    { unfold show_map, bind, when, lift, ret, print.
      rewrite Hmin, Hmax.
      destruct (significance a), (fst (rangevalue a)), (snd (rangevalue a));
        simpl; rewrite ?Reqb_refl; reflexivity. }
    rewrite Hrun in Hnone. cbn [fst] in Hnone.
    rewrite Hnone in Hsaved. discriminate. }
  rewrite (show_map_plots gauss_weight a world0 lo hi Hmin Hmax Hne) in Hrun.
  eexists. eexists. exact Hrun.
Qed.

(** The figure that a call has saved: the image, then what the overlays
    have added, in the order of the source, then the four labels. *)
Lemma show_map_saved_figure (a : show_map_args) (w : world)
    (figure : list artist) :
  show_map gauss_weight a world0 = (w, Returned tt) ->
  saved w = [(outfile a, figure)] ->
  exists (vmin vmax : R) (wa : world) (l1 l2 l3 l5 : list artist),
    show_pointing a wa = (drawn wa l2, Returned tt)
    /\ forallb background l1 = true
    /\ forallb background l3 = true
    /\ forallb background l5 = true
    /\ List.filter is_point_source_artist l2 = []
    /\ stdout w = boost_lines a
    /\ figure
       = Imshow (processed gauss_weight a) (cmap a)
                (if logscale a then SymLogNorm 1 else NormLinear) vmin vmax
         :: l1 ++ l2 ++ l3
            ++ flat_map entry_artists
                 (combine (ps_name a) (combine (ps_ra a) (ps_dec a)))
            ++ l5
            ++ [ XLabel "R.A. (deg)"; YLabel "Dec (deg)";
                 Title (maptitle a); Colorbar (bartitle a) ].
Proof.
  intros Hrun Hsaved.
  destruct (show_map_saved a w figure Hrun Hsaved) as (vmin & vmax & Hplot).
  destruct (plot_map_returned a _ vmin vmax _ w Hplot)
    as (wa & l1 & l2 & l3 & l5 & H2 & B1 & B3 & B5 & P2 & Hw).
  exists vmin, vmax, wa, l1, l2, l3, l5.
  repeat (split; [assumption|]).
  rewrite Hw in Hsaved |- *. cbn [stdout saved] in *.
  split; [reflexivity|]. now injection Hsaved as <-.
Qed.



End WholeRun.

(** C6.  The region ellipse drawn for a cluster at declination [d] (degrees)
    with radius [r] has half the width [r / cos d] and the height [2 r];
    at [d = 60] and [r = 0.5] the half-width is 1. *)
Theorem region_ellipse_half_width (a : show_map_args) (w : world) (r ra d : R) :
  cluster_t500 a = Some r ->
  cluster_ra a = Some ra ->
  cluster_dec a = Some d ->
  exists width height : R,
    show_t500 a w
    = (drawn w [ Ellipse ra d width height false "lightgray";
                 Text (CNum (ra - r)) (CNum (d - r)) "$R_{500}$" "lightgray" ],
       Returned tt)
    /\ width / 2 = r / cos (d * PI / 180)
    /\ height = 2 * r
    /\ (d = 60 -> r = 0.5 -> width / 2 = 1).
Proof.
  intros Hr Hra Hd.
  exists (2 * r / cos (d * PI / 180)), (2 * r).
  assert (Hhalf : 2 * r / cos (d * PI / 180) / 2 = r / cos (d * PI / 180)).
  { unfold Rdiv. set (c := / cos (d * PI * / 180)). lra. }
  split; [|split; [exact Hhalf|split; [reflexivity|]]].
  - unfold show_t500. rewrite Hr, Hra, Hd.
    unfold bind, add_artist, drawn. simpl.
    now rewrite <- app_assoc.
  - intros -> ->. rewrite Hhalf.
    replace (60 * PI / 180) with (PI / 3) by lra.
    rewrite cos_PI3. lra.
Qed.

End OverlayFacts.

(** * The statements at sample calls *)

Section RenderSamples.

Import Plotting.
Local Open Scope R_scope.

Lemma smoothing_fwhm_zero_is_identity_witness :
  smoothing_FWHM (sample_call counts_2x2 0 false) = 0
  /\ smoothed copy_weight (sample_call counts_2x2 0 false) = counts_2x2.
Proof.
  split; [reflexivity|].
  apply (smoothing_fwhm_zero_is_identity copy_weight
           (sample_call counts_2x2 0 false)).
  reflexivity.
Defined.

Lemma has_pixels_counts : has_pixels counts_2x2.
Proof. unfold has_pixels, counts_2x2. simpl. discriminate. Qed.

Lemma has_pixels_zeros : has_pixels zeros_10x10.
Proof. unfold has_pixels, zeros_10x10. simpl. discriminate. Qed.

Lemma all_zero_zeros : all_zero zeros_10x10.
Proof.
  unfold all_zero, zeros_10x10.
  apply Forall_forall. intros row Hrow.
  apply list_elem_of_In, repeat_spec in Hrow. subst row.
  apply Forall_forall. intros p Hp.
  now apply list_elem_of_In, repeat_spec in Hp.
Qed.

(** C2, as stated, fails: a one-pixel raster of value 1, rendered in
    significance mode without smoothing, has [sigma_px = 0] and its pixel
    is multiplied by the factor 0; the raster is not left unchanged. *)
Lemma significance_zero_sigma_is_not_a_noop :
  let a := sample_call [[1]] 0 true in
  significance a = true
  /\ sigma_px (smoothing_FWHM a) (Rabs (fst (cdelt (hdu_header (mapfile a))))) = 0
  /\ pixel (smoothed copy_weight a) 0 0 = Some 1
  /\ pixel (processed copy_weight a) 0 0 = Some 0
  /\ processed copy_weight a <> smoothed copy_weight a.
Proof.
  intros a.
  assert (Hs : smoothed copy_weight a = [[1]])
    by (apply smoothed_unsmoothed; reflexivity).
  assert (Hp : processed copy_weight a = [[0]]).
  { unfold processed. rewrite Hs. simpl.
    rewrite sigma_px_0. unfold significance_norm.
    do 2 f_equal. ring. }
  split; [reflexivity|]. split; [apply sigma_px_0|].
  rewrite Hs, Hp. repeat split.
  intros E. injection E as E. lra.
Qed.

Lemma significance_rescales_every_pixel_witness :
  significance (sample_call counts_2x2 0.1 true) = true
  /\ pixel (processed copy_weight (sample_call counts_2x2 0.1 true)) 1 0
     = option_map
         (fun p => p * (2 * (0.1 / (2 * sqrt (2 * ln 2)) / Rabs (-0.02)) * sqrt PI))
         (pixel (smoothed copy_weight (sample_call counts_2x2 0.1 true)) 1 0).
Proof.
  split; [reflexivity|].
  apply (significance_rescales_every_pixel copy_weight
           (sample_call counts_2x2 0.1 true) eq_refl).
Defined.

(** C9, as stated, fails: a raster with a [nan] pixel, rendered in
    significance mode without smoothing, is multiplied by the factor 0 and
    keeps its [nan]; the largest pixel is [nan], which is not equal to 0,
    so the image is not identically zero and the empty-map test fails. *)
Lemma significance_without_smoothing_keeps_nan :
  let image :=
    FloatPixels.processed FloatPixels.copy_blur FloatPixels.nan_raster
                          (-0.02) 0 true in
  significance_norm (sigma_px 0 (Rabs (-0.02))) = 0
  /\ image = [[Finite 0; NaN]]
  /\ FloatPixels.np_amax image = Returned NaN
  /\ FloatPixels.is_empty_map image = Returned false.
Proof.
  intros image.
  assert (Hnorm : significance_norm (sigma_px 0 (Rabs (-0.02))) = 0)
    by (rewrite sigma_px_0; unfold significance_norm; ring).
  assert (Himage : image = [[Finite 0; NaN]]).
  { unfold image, FloatPixels.processed, FloatPixels.gaussian_filter.
    rewrite Hnorm, sigma_px_0, Rltb_false by lra.
    unfold FloatPixels.scale_image, FloatPixels.nan_raster.
    cbn [map FloatPixels.fl_scale]. do 3 f_equal. ring. }
  split; [exact Hnorm|]. split; [exact Himage|].
  rewrite Himage. split; reflexivity.
Qed.

Lemma significance_without_smoothing_blanks_map_witness :
  has_pixels counts_2x2
  /\ show_map copy_weight (sample_call counts_2x2 0 true) world0
     = ({| stdout := [boost_line_1; boost_line_2; empty_line "map.png"];
           axes := [];
           saved := [] |}, Returned tt).
Proof.
  split; [exact has_pixels_counts|].
  apply (significance_without_smoothing_blanks_map copy_weight
           (sample_call counts_2x2 0 true) eq_refl eq_refl has_pixels_counts).
Defined.

(** C3, as stated, fails: the 10 x 10 grid of zeros rendered in
    significance mode writes no file and raises nothing, but three lines are
    printed and two of them announce a warning. *)
Lemma all_zero_map_two_warnings :
  let run := show_map copy_weight (sample_call zeros_10x10 0 true) world0 in
  all_zero zeros_10x10
  /\ snd run = Returned tt
  /\ saved (fst run) = []
  /\ stdout (fst run) = [boost_line_1; boost_line_2; empty_line "map.png"]
  /\ length (List.filter is_warning (stdout (fst run))) = 2%nat.
Proof.
  intros run.
  assert (Hrun : run = ({| stdout := [boost_line_1; boost_line_2;
                                      empty_line "map.png"];
                           axes := []; saved := [] |}, Returned tt)).
  { unfold run.
    rewrite (show_map_empty copy_weight (sample_call zeros_10x10 0 true) world0).
    - reflexivity.
    - exact has_pixels_zeros.
    - apply processed_zero. exact all_zero_zeros. }
  rewrite Hrun. split; [exact all_zero_zeros|].
  repeat split.
Qed.

Lemma all_zero_map_is_not_plotted_witness :
  has_pixels zeros_10x10 /\ all_zero zeros_10x10
  /\ show_map copy_weight (sample_call zeros_10x10 0.1 false) world0
     = ({| stdout := [empty_line "map.png"]; axes := []; saved := [] |},
        Returned tt).
Proof.
  split; [exact has_pixels_zeros|]. split; [exact all_zero_zeros|].
  apply (all_zero_map_is_not_plotted copy_weight
           (sample_call zeros_10x10 0.1 false)
           has_pixels_zeros all_zero_zeros).
Defined.

(** A whole run: a raster of counts with every overlay requested. *)
Lemma counts_extremes :
  np_amin counts_2x2 = Returned 1 /\ np_amax counts_2x2 = Returned 4.
Proof.
  unfold np_amin, np_amax, counts_2x2. simpl. split; f_equal.
  - unfold Rmin. repeat destruct (Rle_dec _ _); lra.
  - unfold Rmax. repeat destruct (Rle_dec _ _); lra.
Qed.

Example show_map_overlay_run :
  exists width height psf_x psf_w txt_x,
    let figure :=
            [ Imshow counts_2x2 "magma" NormLinear 1 4;
              Ellipse 83.63 60 width height false "lightgray";
              Text (CNum (83.63 - 0.5)) (CNum (60 - 0.5)) "$R_{500}$" "lightgray";
              Scatter (CList [83.6; 83.7]) (CList [60; 60.1]) "x" "white" 100;
              Text (CNum 83.6) (CNum (60 + 0.2)) "Pointings" "white";
              Scatter (CNum 83.63) (CNum 60) "x" "cyan" 100;
              Text (CNum 83.63) (CNum (60 - 0.2)) "Cluster" "cyan";
              Scatter (CNum 83.5) (CNum 60.1) "o" "green" 200;
              Text (CNum (83.5 - 0.1)) (CNum (60.1 + 0.1)) "A" "green";
              Scatter (CNum 83.9) (CNum 59.9) "o" "green" 200;
              Text (CNum (83.9 - 0.1)) (CNum (59.9 + 0.1)) "C" "green";
              Text (CNum txt_x) (CNum (60 - 1 * 0.02 + 0.3)) "PSF" "white";
              Ellipse psf_x (60 - 1 * 0.02 + 0.3) psf_w 0.1 true "white";
              XLabel "R.A. (deg)"; YLabel "Dec (deg)";
              Title "Counts"; Colorbar "counts" ] in
    show_map copy_weight (overlay_call counts_2x2) world0
    = ({| stdout := []; axes := figure; saved := [("map.png", figure)] |},
       Returned tt).
Proof.
  destruct counts_extremes as [Hmin Hmax].
  assert (Hproc : processed copy_weight (overlay_call counts_2x2) = counts_2x2)
    by (unfold processed; simpl; now apply smoothed_unsmoothed).
  do 5 eexists.
  rewrite (show_map_plots copy_weight (overlay_call counts_2x2) world0 1 4);
    rewrite ?Hproc; try assumption; [|left; lra].
  cbv [plot_map show_t500 show_pointing show_center show_point_sources
       show_point_source show_PSF scatter py_index try_except when bind
       add_artist lift ret raise savefig for_each seq length
       lookup list_lookup coord_is_not_None coord_size py_add_float py_first
       andb Nat.eqb forallb text_anchor_ok is_scalar app fst snd
       overlay_call world0 stdout axes saved
       mapfile outfile hdu_header cdelt crval crpix
       cluster_ra cluster_dec cluster_t500 cluster_name
       ps_name ps_ra ps_dec ptg_ra ptg_dec PSF maptitle bartitle
       logscale cmap].
  reflexivity.
Qed.

Lemma region_ellipse_half_width_witness :
  exists width height : R,
    show_t500 (overlay_call counts_2x2) world0
    = (drawn world0
         [ Ellipse 83.63 60 width height false "lightgray";
           Text (CNum (83.63 - 0.5)) (CNum (60 - 0.5)) "$R_{500}$" "lightgray" ],
       Returned tt)
    /\ width / 2 = 1.
Proof.
  destruct (region_ellipse_half_width (overlay_call counts_2x2) world0
              0.5 83.63 60 eq_refl eq_refl eq_refl)
    as (width & height & Hrun & _ & _ & H60).
  exists width, height. split; [exact Hrun|].
  apply H60; reflexivity.
Defined.

Lemma counts_not_all_zero : ~ all_zero counts_2x2.
Proof.
  unfold all_zero, counts_2x2. intros H.
  apply Forall_cons_1 in H as [H _]. apply Forall_cons_1 in H as [H _]. lra.
Qed.

Lemma sources_call_plotted :
  ~ all_zero (processed copy_weight (sources_call counts_2x2)).
Proof.
  replace (processed copy_weight (sources_call counts_2x2)) with counts_2x2;
    [exact counts_not_all_zero|].
  symmetry. unfold processed.
  cbn [significance sources_call]. now apply smoothed_unsmoothed.
Qed.

Lemma single_pointing_call_plotted :
  ~ all_zero (processed copy_weight (single_pointing_call counts_2x2)).
Proof.
  replace (processed copy_weight (single_pointing_call counts_2x2))
    with counts_2x2; [exact counts_not_all_zero|].
  symmetry. unfold processed.
  cbn [significance single_pointing_call]. now apply smoothed_unsmoothed.
Qed.

Lemma sources_call_plain : plain_call (sources_call counts_2x2).
Proof. repeat split. Qed.

Lemma single_pointing_call_plain :
  plain_call (single_pointing_call counts_2x2).
Proof. repeat split. Qed.



End RenderSamples.

Section PSFSamples.

Import Plotting.
Local Open Scope R_scope.

Lemma theta_mean_four_bins :
  theta_mean four_bins = Returned [(0 + 1) / 2; (1 + 2) / 2].
Proof. reflexivity. Qed.

Lemma theta_mean_two_bins :
  theta_mean two_bins = Returned [(0 + 1) / 2; (1 + 2) / 2].
Proof. reflexivity. Qed.

Lemma eng_mean_four_bins : eng_mean four_bins = Returned four_centres.
Proof. reflexivity. Qed.

Lemma eng_mean_two_bins : eng_mean two_bins = Returned two_centres.
Proof. reflexivity. Qed.

Lemma increasing_four_centres : increasing four_centres.
Proof.
  unfold increasing, four_centres.
  repeat (constructor; [|repeat (constructor; try lra)]). constructor.
Qed.

Lemma increasing_two_centres : increasing two_centres.
Proof.
  unfold increasing, two_centres.
  repeat (constructor; [|repeat (constructor; try lra)]). constructor.
Qed.

Lemma four_centres_from : exists x, In x four_centres /\ x < 1.
Proof. exists ((0.1 + 1) / 2). split; [now left|lra]. Qed.

Lemma four_centres_upto : exists x, In x four_centres /\ 10 < x.
Proof.
  exists ((100 + 1000) / 2). split; [|lra].
  unfold four_centres. cbn [In]. tauto.
Qed.





End PSFSamples.

(** * More on Admin._check_obsID: every branch, the printed lines *)

Section AdminMore.

Import Admin.
Local Open Scope string_scope.

Variable self : self_t.

(** The line printed for an obsID that is not known. *)
Definition warning_line (s : string) : string :=
  "WARNING: obsID " ++ s ++ " does not exist, ignore it".

Definition unknown (s : string) : bool :=
  negb (py_in s (obs_setup_obsid self)).

Lemma flag_entries_flags (l : list pyval) (out : list string)
    (flags : list (string * bool)) :
  flag_entries self l = (out, Returned flags) ->
  forall s b, In (s, b) flags -> b = py_in s (obs_setup_obsid self).
Proof.
  revert out flags. induction l as [|v l IH]; intros out flags H s b Hin.
  - injection H as <- <-. destruct Hin.
  - destruct v as [|s0|s0|n|l0]; simpl in H; try discriminate.
    destruct (flag_entries self l) as [out' [flags'|e]] eqn:E;
      [|discriminate].
    injection H as <- <-.
    destruct Hin as [Heq|Hin].
    + now injection Heq as <- <-.
    + exact (IH _ _ eq_refl s b Hin).
Qed.

Lemma flag_entries_silent (l : list pyval) :
  silent self = true -> fst (flag_entries self l) = [].
Proof.
  intros Hs. induction l as [|v l IH]; [reflexivity|].
  destruct v as [|s0|s0|n|l0]; simpl; try reflexivity.
  rewrite Hs.
  destruct (flag_entries self l) as [out [flags|e]]; simpl in *;
    rewrite IH; now destruct (py_in s0 (obs_setup_obsid self)).
Qed.

Lemma flag_entries_lines (ss : list string) :
  fst (flag_entries self (map PyStr ss))
  = if silent self then []
    else map warning_line (List.filter unknown ss).
Proof.
  induction ss as [|s ss IH].
  - simpl. now destruct (silent self).
  - simpl. unfold unknown at 1.
    pose proof (flag_entries_strings self ss) as Hsnd.
    destruct (flag_entries self (map PyStr ss)) as [out [flags|e]];
      simpl in *; [|discriminate].
    rewrite IH.
    destruct (py_in s (obs_setup_obsid self)), (silent self); reflexivity.
Qed.

Lemma fst_check_obsID_list (l : list pyval) :
  fst (_check_obsID self (PyList l)) = fst (flag_entries self l).
Proof.
  unfold _check_obsID.
  destruct (flag_entries self l) as [out [flags|e]]; [|reflexivity].
  now destruct (Nat.eqb (count_good flags) 0).
Qed.

(** What the list branch returns: [numpy.str_] items, and at least one. *)
Lemma check_obsID_list_returns (l : list pyval) (out : list string)
    (res : list pyval) :
  _check_obsID self (PyList l) = (out, Returned res) ->
  exists flags texts,
    flag_entries self l = (out, Returned flags)
    /\ select_good flags <> []
    /\ res = map PyNpStr texts
    /\ texts <> []
    /\ forall t, t ∈ texts <-> t ∈ select_good flags.
Proof.
  unfold _check_obsID. intros H.
  destruct (flag_entries self l) as [out' [flags|e]]; [|discriminate].
  rewrite count_good_select in H.
  destruct (select_good flags) as [|k kept] eqn:Ek; [discriminate|].
  simpl in H. injection H as <- <-.
  exists flags, (list_of_set (k :: kept)).
  assert (Hmem : forall t, t ∈ list_of_set (k :: kept) <-> t ∈ k :: kept).
  { intros t. unfold list_of_set.
    now rewrite elem_of_elements, elem_of_list_to_set. }
  rewrite Ek. split; [reflexivity|]. split; [discriminate|].
  split; [reflexivity|]. split; [|exact Hmem].
  intros E. assert (Hk : k ∈ list_of_set (k :: kept)) by (apply Hmem; left).
  rewrite E in Hk. inversion Hk.
Qed.

(** Whatever is passed, every item of a list that comes back stands for a
    known obsID: it is that obsID, or its numpy copy, which has the same
    text up to the NUL characters the obsID ends with. *)
Theorem check_obsID_returns_known_runs
    (obsID : pyval) (out : list string) (res : list pyval) :
  _check_obsID self obsID = (out, Returned res) ->
  forall x, x ∈ res ->
    exists s, s ∈ obs_setup_obsid self
              /\ (x = PyStr s \/ x = PyNpStr (np_item s)).
Proof.
  intros H x Hx. destruct obsID as [|s0|s0|n|l].
  - simpl in H. injection H as <- <-.
    apply list_elem_of_fmap in Hx as (s & -> & Hs). exists s. auto.
  - simpl in H. unfold py_in in H. case_bool_decide as Hin; [|discriminate].
    injection H as <- <-. apply list_elem_of_singleton in Hx. subst x.
    exists s0. auto.
  - discriminate.
  - discriminate.
  - destruct (check_obsID_list_returns l out res H)
      as (flags & texts & Hflags & _ & -> & _ & Hmem).
    apply list_elem_of_fmap in Hx as (t & -> & Ht).
    apply Hmem, list_elem_of_In in Ht. unfold select_good in Ht.
    apply in_map_iff in Ht as ([s b] & <- & Hin).
    apply filter_In in Hin as [Hin Hb]. simpl in Hb. subst b.
    pose proof (flag_entries_flags l out flags Hflags s true Hin) as Hknown.
    unfold py_in in Hknown. symmetry in Hknown.
    apply bool_decide_eq_true in Hknown. exists s. auto.
Qed.

(** A known run given as a string comes back as the list that holds that
    string; given as the list that holds it, it comes back as one
    [numpy.str_], with the text the array keeps.  Neither call prints. *)
Theorem check_obsID_string_is_singleton_list (s : string) :
  s ∈ obs_setup_obsid self ->
  _check_obsID self (PyStr s) = ([], Returned [PyStr s])
  /\ _check_obsID self (str_list [s]) = ([], Returned [PyNpStr (np_item s)]).
Proof.
  intros Hs.
  assert (Hin : py_in s (obs_setup_obsid self) = true)
    by (unfold py_in; now apply bool_decide_eq_true).
  assert (Hset : list_of_set [np_item s] = [np_item s]).
  { unfold list_of_set. cbn [list_to_set].
    rewrite (right_id_L ∅ (∪)). apply elements_singleton. }
  unfold str_list, _check_obsID.
  cbn [map flag_entries]. rewrite Hin.
  cbn [app count_good select_good List.filter snd fst map length Nat.eqb].
  split; [reflexivity|]. now rewrite Hset.
Qed.

(** One warning per unknown entry, in list order, unless [silent]; and
    with [silent] nothing is printed for any argument. *)
Theorem check_obsID_prints_one_line_per_unknown :
  (forall ss : list string,
      fst (_check_obsID self (str_list ss))
      = if silent self then []
        else map warning_line (List.filter unknown ss))
  /\ (forall obsID : pyval,
        silent self = true -> fst (_check_obsID self obsID) = []).
Proof.
  split.
  - intros ss. unfold str_list.
    rewrite fst_check_obsID_list. apply flag_entries_lines.
  - intros obsID Hs. destruct obsID as [|s0|s0|n|l]; try reflexivity.
    + simpl. now destruct (py_in s0 (obs_setup_obsid self)).
    + rewrite fst_check_obsID_list. now apply flag_entries_silent.
Qed.

(** The list that the list branch returns is not accepted back: its items
    are [numpy.str_], the type check of the loop refuses the first of them
    and the second call raises [ValueError] before it prints anything. *)
Theorem check_obsID_twice (l : list pyval) (out : list string)
    (res : list pyval) :
  _check_obsID self (PyList l) = (out, Returned res) ->
  _check_obsID self (PyList res)
  = ([], Raised (ValueError
                   "The given obsID should be a string or a list of string.")).
Proof.
  intros H.
  destruct (check_obsID_list_returns l out res H)
    as (_ & texts & _ & _ & -> & Hne & _).
  destruct texts as [|t texts]; [contradiction|]. reflexivity.
Qed.

End AdminMore.

(** * More on show_map: what a run leaves behind *)

Section RenderMore.

Import Plotting.
Local Open Scope R_scope.

Variable gauss_weight : R -> nat * nat -> nat * nat -> nat * nat -> R.

(** A step that can only add artists: it prints nothing, saves nothing and
    keeps the artists that are on the axes, also when it raises. *)
Definition only_draws {A : Type} (m : M A) : Prop :=
  forall w,
    stdout (fst (m w)) = stdout w
    /\ saved (fst (m w)) = saved w
    /\ exists l, axes (fst (m w)) = axes w ++ l.

(** What the plotting branch may have done to the world [w0] when it ends
    with the outcome [snd r]: artists added, and the file [name] saved with
    those artists, on a normal return only. *)
Definition plot_post (w0 : world) (name : string)
    (r : world * outcome unit) : Prop :=
  stdout (fst r) = stdout w0
  /\ (exists l, axes (fst r) = axes w0 ++ l)
  /\ (saved (fst r) = saved w0
      \/ (snd r = Returned tt
          /\ saved (fst r) = saved w0 ++ [(name, axes (fst r))])).

Lemma only_draws_ret {A : Type} (a : A) : only_draws (ret a).
Proof. intros w. simpl. repeat split. exists []. now rewrite app_nil_r. Qed.

Lemma only_draws_lift {A : Type} (o : outcome A) : only_draws (lift o).
Proof. intros w. simpl. repeat split. exists []. now rewrite app_nil_r. Qed.

Lemma only_draws_raise {A : Type} (e : exn) : only_draws (@raise A e).
Proof. intros w. simpl. repeat split. exists []. now rewrite app_nil_r. Qed.

Lemma only_draws_add_artist (x : artist) : only_draws (add_artist x).
Proof. intros w. simpl. repeat split. now exists [x]. Qed.

Lemma only_draws_bind {A B : Type} (m : M A) (k : A -> M B) :
  only_draws m -> (forall a, only_draws (k a)) -> only_draws (bind m k).
Proof.
  intros Hm Hk w. unfold bind.
  destruct (Hm w) as (Ho & Hs & l & Ha).
  destruct (m w) as [w1 [a|e]]; simpl in *.
  - destruct (Hk a w1) as (Ho' & Hs' & l' & Ha').
    rewrite Ho', Hs', Ha', Ho, Hs, Ha. repeat split.
    exists (l ++ l'). now rewrite app_assoc.
  - repeat split; try assumption. now exists l.
Qed.

Lemma only_draws_try_except {A : Type} (m h : M A) :
  only_draws m -> only_draws h -> only_draws (try_except m h).
Proof.
  intros Hm Hh w. unfold try_except.
  destruct (Hm w) as (Ho & Hs & l & Ha).
  destruct (m w) as [w1 [a|e]]; simpl in *.
  - repeat split; try assumption. now exists l.
  - destruct (Hh w1) as (Ho' & Hs' & l' & Ha').
    rewrite Ho', Hs', Ha', Ho, Hs, Ha. repeat split.
    exists (l ++ l'). now rewrite app_assoc.
Qed.

Lemma only_draws_when (b : bool) (m : M unit) :
  only_draws m -> only_draws (when b m).
Proof. intros Hm. destruct b; [exact Hm|apply only_draws_ret]. Qed.

Lemma only_draws_for_each {A : Type} (l : list A) (body : A -> M unit) :
  (forall x, only_draws (body x)) -> only_draws (for_each l body).
Proof.
  intros Hb. induction l as [|x l IH]; simpl.
  - apply only_draws_ret.
  - apply only_draws_bind; [apply Hb|intros _; exact IH].
Qed.

Lemma only_draws_scatter (x y : coord) (marker color : string) (s : R) :
  only_draws (scatter x y marker color s).
Proof.
  unfold scatter. destruct (Nat.eqb _ _);
    [apply only_draws_add_artist|apply only_draws_raise].
Qed.

Lemma only_draws_py_index {A : Type} (l : list A) (i : nat) :
  only_draws (py_index l i).
Proof.
  unfold py_index. destruct (l !! i);
    [apply only_draws_ret|apply only_draws_raise].
Qed.

Ltac draws :=
  repeat first
    [ apply only_draws_bind; [|intros ?]
    | apply only_draws_add_artist
    | apply only_draws_scatter
    | apply only_draws_py_index
    | apply only_draws_lift
    | apply only_draws_ret
    | apply only_draws_raise
    | apply only_draws_when
    | apply only_draws_try_except ].

Lemma only_draws_show_t500 (a : show_map_args) : only_draws (show_t500 a).
Proof.
  unfold show_t500.
  destruct (cluster_t500 a), (cluster_ra a), (cluster_dec a); draws.
Qed.

Lemma only_draws_show_pointing (a : show_map_args) :
  only_draws (show_pointing a).
Proof. unfold show_pointing. draws. Qed.

Lemma only_draws_show_center (a : show_map_args) : only_draws (show_center a).
Proof.
  unfold show_center. destruct (cluster_ra a), (cluster_dec a); draws.
Qed.

Lemma only_draws_show_point_sources (names : list string)
    (ras decs : list (option R)) :
  only_draws (show_point_sources names ras decs).
Proof.
  unfold show_point_sources. apply only_draws_for_each. intros i.
  unfold show_point_source. draws.
  match goal with |- only_draws (match ?r with _ => _ end) =>
    destruct r end;
  match goal with |- only_draws (match ?d with _ => _ end) =>
    destruct d | _ => idtac end; draws.
Qed.

Lemma only_draws_show_PSF (wcs_map : wcs_t) (psf : option R) :
  only_draws (show_PSF wcs_map psf).
Proof. unfold show_PSF. destruct psf; draws. Qed.

Lemma plot_post_savefig (name : string) (w : world) :
  plot_post w name (savefig name w).
Proof.
  unfold plot_post, savefig.
  destruct (forallb text_anchor_ok (axes w)); simpl.
  - repeat split; [exists []; now rewrite app_nil_r|]. right. now split.
  - repeat split; [exists []; now rewrite app_nil_r|]. now left.
Qed.

Lemma plot_post_bind {A : Type} (m : M A) (k : A -> M unit)
    (name : string) (w : world) :
  only_draws m ->
  (forall a w', plot_post w' name (k a w')) ->
  plot_post w name (bind m k w).
Proof.
  intros Hm Hk. unfold bind.
  destruct (Hm w) as (Ho & Hs & l & Ha).
  destruct (m w) as [w1 [a|e]]; simpl in *.
  - destruct (Hk a w1) as (Ho' & (l' & Ha') & Hfile).
    unfold plot_post. split; [now rewrite Ho'|]. split.
    + exists (l ++ l'). now rewrite Ha', Ha, app_assoc.
    + rewrite <- Hs. exact Hfile.
  - unfold plot_post. simpl. repeat split; try assumption.
    + now exists l.
    + now left.
Qed.

Lemma plot_post_plot_map (a : show_map_args) (img : image) (vmin vmax : R)
    (w : world) :
  plot_post w (outfile a) (plot_map a img vmin vmax w)
  /\ exists rest,
       axes (fst (plot_map a img vmin vmax w))
       = axes w
         ++ Imshow img (cmap a)
                   (if logscale a then SymLogNorm 1 else NormLinear)
                   vmin vmax :: rest.
Proof.
  assert (Hrest : forall w',
    plot_post w' (outfile a)
      ((show_t500 a ;; show_pointing a ;; show_center a ;;
        show_point_sources (ps_name a) (ps_ra a) (ps_dec a) ;;
        show_PSF (hdu_header (mapfile a)) (PSF a) ;;
        add_artist (XLabel "R.A. (deg)") ;;
        add_artist (YLabel "Dec (deg)") ;;
        add_artist (Title (maptitle a)) ;;
        add_artist (Colorbar (bartitle a)) ;;
        savefig (outfile a)) w')).
  { intros w'.
    apply plot_post_bind; [apply only_draws_show_t500|intros _ ?].
    apply plot_post_bind; [apply only_draws_show_pointing|intros _ ?].
    apply plot_post_bind; [apply only_draws_show_center|intros _ ?].
    apply plot_post_bind; [apply only_draws_show_point_sources|intros _ ?].
    apply plot_post_bind; [apply only_draws_show_PSF|intros _ ?].
    do 4 (apply plot_post_bind; [apply only_draws_add_artist|intros _ ?]).
    apply plot_post_savefig. }
  split.
  - unfold plot_map.
    apply plot_post_bind; [apply only_draws_add_artist|intros _ ?].
    apply Hrest.
  - pose (w1 := {| stdout := stdout w;
                   axes := axes w
                           ++ [Imshow img (cmap a)
                                 (if logscale a then SymLogNorm 1
                                  else NormLinear) vmin vmax];
                   saved := saved w |}).
    destruct (Hrest w1) as (_ & (l & Hl) & _).
    exists l. unfold plot_map. unfold bind at 1. cbn [add_artist].
    fold w1. rewrite Hl. unfold w1. cbn [axes].
    now rewrite <- app_assoc.
Qed.

Lemma empty_line_not_boost (o : string) : ~ In (empty_line o) [boost_line_1; boost_line_2].
Proof.
  unfold empty_line, boost_line_1, boost_line_2.
  intros [H|[H|[]]]; discriminate.
Qed.

(** The run of a call whose processed image has a pixel that is not 0. *)
Lemma show_map_not_empty (a : show_map_args) (lo hi : R) :
  np_amin (processed gauss_weight a) = Returned lo ->
  np_amax (processed gauss_weight a) = Returned hi ->
  hi <> 0 \/ lo <> 0 ->
  let r := show_map gauss_weight a world0 in
  stdout (fst r) = boost_lines a
  /\ (saved (fst r) = []
      \/ (snd r = Returned tt /\ saved (fst r) = [(outfile a, axes (fst r))]))
  /\ exists vmin vmax rest,
       axes (fst r)
       = Imshow (processed gauss_weight a) (cmap a)
                (if logscale a then SymLogNorm 1 else NormLinear)
                vmin vmax :: rest.
Proof.
  intros Hmin Hmax Hne r. unfold r.
  rewrite (show_map_plots gauss_weight a world0 lo hi Hmin Hmax Hne).
  match goal with |- context [plot_map a ?img ?vmin ?vmax ?w] =>
    destruct (plot_post_plot_map a img vmin vmax w)
      as ((Ho & _ & Hfile) & (rest & Hrest));
    split; [exact Ho|split; [exact Hfile|]];
    exists vmin, vmax, rest; exact Hrest
  end.
Qed.

(** [show_map] writes one file, [outfile], or none: a file is written only
    by a call that returns normally, and it holds the artists of the axes,
    the image first. *)
Theorem show_map_writes_outfile_or_nothing (a : show_map_args) :
  let r := show_map gauss_weight a world0 in
  saved (fst r) = []
  \/ (snd r = Returned tt
      /\ exists vmin vmax rest,
           saved (fst r)
           = [(outfile a,
               Imshow (processed gauss_weight a) (cmap a)
                      (if logscale a then SymLogNorm 1 else NormLinear)
                      vmin vmax :: rest)]).
Proof.
  intros r. unfold r.
  destruct (concat (processed gauss_weight a)) as [|p0 ps] eqn:Ec.
  - left. now apply show_map_no_pixels.
  - assert (Hp : has_pixels (processed gauss_weight a))
      by (unfold has_pixels; rewrite Ec; discriminate).
    destruct (extremes_of_pixels _ Hp) as (lo & hi & Hmin & Hmax).
    destruct (Req_dec_T hi 0) as [Hhi|Hhi];
      [destruct (Req_dec_T lo 0) as [Hlo|Hlo]|].
    + left. subst hi lo.
      unfold show_map, bind, when, lift, ret, print.
      rewrite Hmin, Hmax.
      destruct (significance a), (fst (rangevalue a)), (snd (rangevalue a));
        simpl; rewrite ?Reqb_refl; reflexivity.
    + destruct (show_map_not_empty a lo hi Hmin Hmax (or_intror Hlo))
        as (_ & [Hs|[Hr Hs]] & vmin & vmax & rest & Hax);
        [now left|right].
      split; [exact Hr|]. exists vmin, vmax, rest. now rewrite Hs, Hax.
    + destruct (show_map_not_empty a lo hi Hmin Hmax (or_introl Hhi))
        as (_ & [Hs|[Hr Hs]] & vmin & vmax & rest & Hax);
        [now left|right].
      split; [exact Hr|]. exists vmin, vmax, rest. now rewrite Hs, Hax.
Qed.

(** The empty-map line is printed exactly when the image that is tested,
    after smoothing and the significance step, holds only zeros. *)
Theorem empty_map_line_iff_all_zero (a : show_map_args) :
  has_pixels (hdu_data (mapfile a)) ->
  all_zero (processed gauss_weight a)
  <-> In (empty_line (outfile a))
         (stdout (fst (show_map gauss_weight a world0))).
Proof.
  intros Hpix. split.
  - intros Hzero. rewrite (show_map_empty gauss_weight a world0 Hpix Hzero).
    cbn [fst stdout]. apply in_or_app. right. now left.
  - intros Hin.
    pose proof (processed_has_pixels gauss_weight a Hpix) as Hp.
    destruct (extremes_of_pixels _ Hp) as (lo & hi & Hmin & Hmax).
    destruct (Req_dec_T hi 0) as [Hhi|Hhi];
      [destruct (Req_dec_T lo 0) as [Hlo|Hlo]|].
    + subst. now apply extremes_zero.
    + exfalso.
      destruct (show_map_not_empty a lo hi Hmin Hmax (or_intror Hlo))
        as (Ho & _). cbv zeta in Ho. rewrite Ho in Hin.
      unfold boost_lines in Hin. destruct (significance a); [|destruct Hin].
      exact (empty_line_not_boost _ Hin).
    + exfalso.
      destruct (show_map_not_empty a lo hi Hmin Hmax (or_introl Hhi))
        as (Ho & _). cbv zeta in Ho. rewrite Ho in Hin.
      unfold boost_lines in Hin. destruct (significance a); [|destruct Hin].
      exact (empty_line_not_boost _ Hin).
Qed.

End RenderMore.

(** * More on get_cta_psf: its value and its errors *)

Section PSFMore.

Import Plotting.
Local Open Scope R_scope.

Variable cubic_spline : list R -> list R -> R -> R.

(** A weighted mean lies between the bounds of what it averages. *)
Lemma weighted_sums_between (f : R -> R) (slope lo hi : R) (es : list R) :
  (forall e, In e es -> lo <= f e <= hi) ->
  lo * np_sum (map (fun e => np_power e slope) es)
  <= np_sum (map (fun e => f e * np_power e slope) es)
  <= hi * np_sum (map (fun e => np_power e slope) es).
Proof.
  induction es as [|e es IH]; intros H.
  - simpl. lra.
  - cbn [map np_sum fold_right].
    fold (np_sum (map (fun e => np_power e slope) es)).
    fold (np_sum (map (fun e => f e * np_power e slope) es)).
    destruct IH as [IHlo IHhi]; [intros x Hx; apply H; now right|].
    destruct (H e) as [Hlo Hhi]; [now left|].
    assert (Hw : 0 < np_power e slope) by apply exp_pos.
    split; nra.
Qed.

Lemma weighted_mean_between (f : R -> R) (slope lo hi : R) (es : list R) :
  es <> [] ->
  (forall e, In e es -> lo <= f e <= hi) ->
  lo <= weighted_mean f slope es <= hi.
Proof.
  intros Hne H. unfold weighted_mean.
  pose proof (sum_powers_pos slope es Hne) as HW.
  destruct (weighted_sums_between f slope lo hi es H) as [Hlo Hhi].
  set (W := np_sum (map (fun e => np_power e slope) es)) in *.
  set (N := np_sum (map (fun e => f e * np_power e slope) es)) in *.
  split.
  - apply (Rmult_le_reg_r W); [exact HW|].
    replace (N / W * W) with N by (field; lra). exact Hlo.
  - apply (Rmult_le_reg_r W); [exact HW|].
    replace (N / W * W) with N by (field; lra). exact Hhi.
Qed.


(** Fewer than four energy bins, or a width row of another length than
    the row of bin centres: [ValueError], whatever the energies asked for;
    and so when the rows of bin edges cannot be added at all. *)
Theorem psf_of_short_table_raises (t : irf_table) (emin emax slope : R) :
  (forall es, eng_mean t = Returned es ->
              (length es < 4)%nat \/ length (SIGMA_1 t) <> length es) ->
  exists msg,
    get_cta_psf cubic_spline t emin emax slope = Raised (ValueError msg).
Proof.
  intros H. unfold get_cta_psf.
  destruct (theta_mean t) as [th|e] eqn:Hth.
  2:{ destruct (bin_centres_raises _ _ e Hth) as [msg ->]. now exists msg. }
  destruct (eng_mean t) as [es|e] eqn:Hes.
  2:{ destruct (bin_centres_raises _ _ e Hes) as [msg ->]. now exists msg. }
  destruct (interp1d_too_few cubic_spline es (SIGMA_1 t) (H es eq_refl))
    as [msg Hmsg].
  rewrite Hmsg. now exists msg.
Qed.

Lemma range_hi_lt (c x0 : R) (xs : list R) :
  (forall x, In x (x0 :: xs) -> x < c) -> range_hi x0 xs < c.
Proof.
  unfold range_hi. induction xs as [|y xs IH]; intros H; simpl.
  - apply H. now left.
  - apply Rmax_lub_lt.
    + apply H. right. now left.
    + apply IH. intros x [->|Hx]; apply H; [now left|right; now right].
Qed.

Lemma existsb_found {A : Type} (test : A -> bool) (l : list A) (x : A) :
  In x l -> test x = true -> existsb test l = true.
Proof. intros Hin Hx. apply existsb_exists. eauto. Qed.


End PSFMore.

(** * Tools.plotting: the IRF overview and the pointing plots *)

Module PlottingObs.

Import Plotting.
Local Open Scope string_scope.

(** ** show_irf *)

(** The lists [list_use], [caldb_use] and [irf_use]. *)
Record irf_lists : Type :=
  { list_use : list string; caldb_use : list string; irf_use : list string }.

Definition no_irf : irf_lists :=
  {| list_use := []; caldb_use := []; irf_use := [] |}.

(** Select all the unique IRF: the loop reads [caldb_in[i]] and [irf_in[i]]
    for every index of [caldb_in], so the two lists are walked together and
    a missing [irf_in[i]] raises. *)
Fixpoint select_unique (caldb_in irf_in : list string) (acc : irf_lists)
  : outcome irf_lists :=
  match caldb_in with
  | [] => Returned acc
  | c :: caldb_rest =>
      match irf_in with
      | [] => Raised (IndexError "list index out of range")
      | f :: irf_rest =>
          let key := c ++ f in
          if bool_decide (key ∈ list_use acc)
          then select_unique caldb_rest irf_rest acc
          else select_unique caldb_rest irf_rest
                 {| list_use := (list_use acc ++ [key])%list;
                    caldb_use := (caldb_use acc ++ [c])%list;
                    irf_use := (irf_use acc ++ [f])%list |}
      end
  end.

(** [len(s) > 0] *)
Definition nonempty (s : string) : bool :=
  match s with EmptyString => false | String _ _ => true end.

Definition dquote : string := String (ascii_of_nat 34) EmptyString.

Section ShowIrf.

(** gammalib: the response [GCTAResponseIrf(irf, GCaldb('cta', caldb))],
    which may fail to load, and the names it reports. *)
Variable irf_t : Type.
Variable load_irf : string -> string -> outcome irf_t.
Variable mission instrument rspname : irf_t -> string.
Variable toupper : string -> string.

(** ['%.3f' % x] and ['%.1f' % x]. *)
Variable fmt_3f fmt_1f : R -> string.

(** The four panels drawn by [plotting_irf], which is not part of these
    sources: whatever they draw, and they may raise. *)
Variable panels_t : Type.
Variable plot_panels :
  irf_t -> option R -> option R -> option R -> option R -> outcome panels_t.

(** Build selection string *)
Definition eselection (emin emax : option R) : string :=
  match emin, emax with
  | Some emin, Some emax => fmt_3f emin ++ "-" ++ fmt_1f emax ++ " TeV"
  | Some emin, None => " >" ++ fmt_3f emin ++ " TeV"
  | None, Some emax => " <" ++ fmt_1f emax ++ " TeV"
  | None, None => ""
  end.

Definition tselection (tmin tmax : option R) : string :=
  match tmin, tmax with
  | Some tmin, Some tmax => fmt_1f tmin ++ "-" ++ fmt_1f tmax ++ " deg"
  | Some tmin, None => " >" ++ fmt_1f tmin ++ " deg"
  | None, Some tmax => " <" ++ fmt_1f tmax ++ " deg"
  | None, None => ""
  end.

Definition selection (emin emax tmin tmax : option R) : string :=
  let e := eselection emin emax in
  let t := tselection tmin tmax in
  if (nonempty e && nonempty t)%bool then " (" ++ e ++ ", " ++ t ++ ")"
  else if nonempty e then " (" ++ e ++ ")"
  else if nonempty t then " (" ++ t ++ ")"
  else "".

(** Build title *)
Definition irf_title (irf : irf_t) (sel : string) : string :=
  toupper (mission irf) ++ " " ++ dquote ++ instrument irf ++ dquote
  ++ " Instrument Response Function " ++ dquote ++ rspname irf ++ dquote
  ++ sel.

(** One saved figure: its file, its title and its panels. *)
Record irf_figure : Type :=
  { fig_file : string; fig_title : string; fig_panels : panels_t }.

Definition irf_file (plotfile key : string) : string :=
  plotfile ++ "_" ++ key ++ ".png".

(** Loop over all caldb+irf used, by the indices of [caldb_use]; [saved]
    are the figures written so far. *)
Fixpoint plot_irfs (plotfile : string) (emin emax tmin tmax : option R)
    (keys caldbs irfs : list string) (saved : list irf_figure)
  : list irf_figure * outcome unit :=
  match caldbs, irfs, keys with
  | [], _, _ => (saved, Returned tt)
  | c :: caldbs', f :: irfs', key :: keys' =>
      match load_irf c f with
      | Raised e => (saved, Raised e)
      | Returned irf =>
          let title := irf_title irf (selection emin emax tmin tmax) in
          match plot_panels irf emin emax tmin tmax with
          | Raised e => (saved, Raised e)
          | Returned panels =>
              plot_irfs plotfile emin emax tmin tmax keys' caldbs' irfs'
                (saved ++ [ {| fig_file := irf_file plotfile key;
                               fig_title := title;
                               fig_panels := panels |} ])%list
          end
      end
  | _, _, _ => (saved, Raised (IndexError "list index out of range"))
  end.

Definition show_irf (caldb_in irf_in : list string) (plotfile : string)
    (emin emax tmin tmax : option R) : list irf_figure * outcome unit :=
  match select_unique caldb_in irf_in no_irf with
  | Raised e => ([], Raised e)
  | Returned u =>
      plot_irfs plotfile emin emax tmin tmax
                (list_use u) (caldb_use u) (irf_use u) []
  end.

End ShowIrf.

(** ** get_pointings *)

(** An XML element [parameter]: its [name] attribute and the others, read
    with [par.attribute(key)]. *)
Record xml_parameter : Type :=
  { par_name : string; par_attribute : string -> string }.

(** An XML element [observation]: its [id] attribute and its parameters. *)
Record xml_observation : Type :=
  { obs_id : string; obs_parameters : list xml_parameter }.

(** The variables one observation leaves set after the inner loop. *)
Record pointing_vars : Type :=
  { v_ra : option R; v_dec : option R;
    v_roi_ra : option R; v_roi_dec : option R; v_roi_rad : option R;
    v_evfile : option string }.

Definition no_vars : pointing_vars :=
  {| v_ra := None; v_dec := None;
     v_roi_ra := None; v_roi_dec := None; v_roi_rad := None;
     v_evfile := None |}.

(** One dictionary of the returned list. *)
Record pointing : Type :=
  { p_l : R; p_b : R; p_ra : R; p_dec : R;
    p_roi_ra : option R; p_roi_dec : option R; p_roi_rad : option R;
    p_evfile : option string; p_obsid : string }.

Section GetPointings.

(** [float(s)], which raises on a string that is no number. *)
Variable py_float : string -> outcome R.

(** gammalib: galactic longitude and latitude of [GSkyDir.radec_deg]. *)
Variable galactic : R -> R -> R * R.

Definition read_parameter (par : xml_parameter) (v : pointing_vars)
  : outcome pointing_vars :=
  if String.eqb (par_name par) "Pointing" then
    match py_float (par_attribute par "ra") with
    | Raised e => Raised e
    | Returned ra =>
        match py_float (par_attribute par "dec") with
        | Raised e => Raised e
        | Returned dec =>
            Returned {| v_ra := Some ra; v_dec := Some dec;
                        v_roi_ra := v_roi_ra v; v_roi_dec := v_roi_dec v;
                        v_roi_rad := v_roi_rad v; v_evfile := v_evfile v |}
        end
    end
  else if String.eqb (par_name par) "RegionOfInterest" then
    match py_float (par_attribute par "ra") with
    | Raised e => Raised e
    | Returned roi_ra =>
        match py_float (par_attribute par "dec") with
        | Raised e => Raised e
        | Returned roi_dec =>
            match py_float (par_attribute par "rad") with
            | Raised e => Raised e
            | Returned roi_rad =>
                Returned {| v_ra := v_ra v; v_dec := v_dec v;
                            v_roi_ra := Some roi_ra;
                            v_roi_dec := Some roi_dec;
                            v_roi_rad := Some roi_rad;
                            v_evfile := v_evfile v |}
            end
        end
    end
  else if String.eqb (par_name par) "EventList" then
    Returned {| v_ra := v_ra v; v_dec := v_dec v;
                v_roi_ra := v_roi_ra v; v_roi_dec := v_roi_dec v;
                v_roi_rad := v_roi_rad v;
                v_evfile := Some (par_attribute par "file") |}
  else Returned v.

(** [for k in range(npars)] *)
Fixpoint read_parameters (pars : list xml_parameter) (v : pointing_vars)
  : outcome pointing_vars :=
  match pars with
  | [] => Returned v
  | par :: pars' =>
      match read_parameter par v with
      | Raised e => Raised e
      | Returned v' => read_parameters pars' v'
      end
  end.

(** Add valid pointing: [p.radec_deg(ra, dec)] needs two floats. *)
Definition add_pointing (run : xml_observation) (v : pointing_vars)
    (pnt : list pointing) : outcome (list pointing) :=
  match v_ra v with
  | None => Returned pnt
  | Some ra =>
      match v_dec v with
      | None => Raised (TypeError "radec_deg: a float is required")
      | Some dec =>
          let lb := galactic ra dec in
          Returned (pnt ++ [ {| p_l := fst lb; p_b := snd lb;
                                p_ra := ra; p_dec := dec;
                                p_roi_ra := v_roi_ra v;
                                p_roi_dec := v_roi_dec v;
                                p_roi_rad := v_roi_rad v;
                                p_evfile := v_evfile v;
                                p_obsid := obs_id run |} ])%list
      end
  end.

(** [for i in range(nobs)] *)
Fixpoint read_observations (obs : list xml_observation) (pnt : list pointing)
  : outcome (list pointing) :=
  match obs with
  | [] => Returned pnt
  | run :: obs' =>
      match read_parameters (obs_parameters run) no_vars with
      | Raised e => Raised e
      | Returned v =>
          match add_pointing run v pnt with
          | Raised e => Raised e
          | Returned pnt' => read_observations obs' pnt'
          end
      end
  end.

(** The argument is the observation list of the XML file. *)
Definition get_pointings (obs : list xml_observation)
  : outcome (list pointing) :=
  read_observations obs [].

(** ** show_pointings *)

Local Open Scope R_scope.

(** A marker of [ax.scatter] and a patch of [ax.add_patch]; [color] is the
    position on the colour map. *)
Record pointing_marker : Type := { m_x : R; m_y : R; m_color : R }.
Record roi_patch : Type :=
  { e_x : R; e_y : R; e_width : R; e_height : R;
    e_color : R; e_label : string }.

(** What the loop has collected. *)
Record pointings_loop : Type :=
  { markers : list pointing_marker; patches : list roi_patch;
    xmin : list R; xmax : list R; ymin : list R; ymax : list R }.

Definition loop_start : pointings_loop :=
  {| markers := []; patches := [];
     xmin := []; xmax := []; ymin := []; ymax := [] |}.

(** The figure that is saved. *)
Record pointings_plot : Type :=
  { plot_markers : list pointing_marker; plot_patches : list roi_patch;
    xlim : R * R; ylim : R * R; plot_file : string }.

(** Loop over pointings; [colors] are the entries of the colour array that
    are still to be used. *)
Fixpoint plot_pointings (pnt : list pointing) (colors : list R)
    (st : pointings_loop) : outcome pointings_loop :=
  match pnt with
  | [] => Returned st
  | p :: pnt' =>
      match colors with
      | [] => Raised (IndexError "index is out of bounds")
      | color :: colors' =>
          let ra := p_ra p in
          let dec := p_dec p in
          match p_roi_rad p, p_roi_ra p, p_roi_dec p with
          | Some roi_rad, Some roi_ra, Some roi_dec =>
              plot_pointings pnt' colors'
                {| markers := markers st
                              ++ [ {| m_x := ra; m_y := dec;
                                      m_color := color |} ];
                   patches := patches st
                              ++ [ {| e_x := roi_ra; e_y := roi_dec;
                                      e_width :=
                                        2 * roi_rad / cos (dec * PI / 180);
                                      e_height := 2 * roi_rad;
                                      e_color := color;
                                      e_label :=
                                        ("ObsID" ++ p_obsid p)%string |} ];
                   xmin := xmin st
                           ++ [roi_ra - roi_rad / cos (dec * PI / 180)];
                   xmax := xmax st
                           ++ [roi_ra + roi_rad / cos (dec * PI / 180)];
                   ymin := ymin st ++ [roi_dec - roi_rad];
                   ymax := ymax st ++ [roi_dec + roi_rad] |}
          | _, _, _ =>
              Raised (TypeError "unsupported operand type(s): NoneType")
          end
      end
  end.

(** [np.amax] and [np.amin] of a list. *)
Definition list_amax (l : list R) : outcome R := np_amax [l].
Definition list_amin (l : list R) : outcome R := np_amin [l].

Definition show_pointings (xml_file : list xml_observation)
    (plotfile : string) : outcome pointings_plot :=
  match get_pointings xml_file with
  | Raised e => Raised e
  | Returned pnt =>
      let colors := linspace 0 1 (length pnt) in
      match plot_pointings pnt colors loop_start with
      | Raised e => Raised e
      | Returned st =>
          match list_amax (xmax st), list_amin (xmin st),
                list_amax (ymax st), list_amin (ymin st) with
          | Returned xM, Returned xm, Returned yM, Returned ym =>
              let xctr := (xM + xm) / 2 in
              let yctr := (yM + ym) / 2 in
              let fovx := (xM - xm) * 1.1 / cos (yctr * PI / 180) in
              let fovy := (yM - ym) * 1.1 in
              Returned {| plot_markers := markers st;
                          plot_patches := patches st;
                          xlim := (xctr - fovx / 2, xctr + fovx / 2);
                          ylim := (yctr - fovy / 2, yctr + fovy / 2);
                          plot_file := plotfile |}
          | Raised e, _, _, _ => Raised e
          | _, Raised e, _, _ => Raised e
          | _, _, Raised e, _ => Raised e
          | _, _, _, Raised e => Raised e
          end
      end
  end.

End GetPointings.

End PlottingObs.

(** * Properties of show_irf *)

Section IrfFacts.

Import Plotting PlottingObs.
Local Open Scope string_scope.

(** The keys [caldb_in[i] + irf_in[i]] of the indices both lists have. *)
Definition irf_keys (caldb_in irf_in : list string) : list string :=
  map (fun p : string * string => fst p ++ snd p) (combine caldb_in irf_in).

(** The three lists describe the same entries, index by index. *)
Definition aligned (u : irf_lists) : Prop :=
  length (caldb_use u) = length (irf_use u)
  /\ list_use u = irf_keys (caldb_use u) (irf_use u).

Lemma irf_keys_snoc (cs fs : list string) (c f : string) :
  length cs = length fs ->
  irf_keys (cs ++ [c])%list (fs ++ [f])%list
  = (irf_keys cs fs ++ [(c ++ f)%string])%list.
Proof.
  unfold irf_keys. revert fs.
  induction cs as [|c0 cs IH]; intros [|f0 fs] H; try discriminate.
  - reflexivity.
  - simpl. f_equal. apply IH. now injection H.
Qed.

Lemma select_unique_inv (caldb_in : list string) :
  forall (irf_in : list string) (acc u : irf_lists),
    select_unique caldb_in irf_in acc = Returned u ->
    NoDup (list_use acc) -> aligned acc ->
    NoDup (list_use u) /\ aligned u
    /\ forall key, key ∈ list_use u
                   <-> key ∈ list_use acc \/ key ∈ irf_keys caldb_in irf_in.
Proof.
  induction caldb_in as [|c cs IH]; intros irf_in acc u H Hnd Hal.
  - injection H as <-. split; [exact Hnd|]. split; [exact Hal|].
    intros key. unfold irf_keys. simpl. split; [now left|].
    intros [Hk|Hk]; [exact Hk|inversion Hk].
  - destruct irf_in as [|f fs]; [discriminate|]. simpl in H.
    unfold irf_keys. cbn [combine map fst snd]. fold (irf_keys cs fs).
    case_bool_decide as Hseen.
    + destruct (IH fs acc u H Hnd Hal) as (Hnd' & Hal' & Hkeys).
      split; [exact Hnd'|]. split; [exact Hal'|].
      intros key. rewrite Hkeys, elem_of_cons.
      split; [tauto|]. intros [Hk|[->|Hk]]; tauto.
    + destruct Hal as [Hlen Hkeys0].
      destruct (IH fs _ u H) as (Hnd' & Hal' & Hkeys).
      * cbn [list_use]. apply NoDup_app. split; [exact Hnd|].
        split; [|apply NoDup_singleton].
        intros x Hx Hx'. apply list_elem_of_singleton in Hx'. now subst.
      * split; cbn [list_use caldb_use irf_use].
        -- rewrite !length_app. simpl. lia.
        -- rewrite irf_keys_snoc by exact Hlen. now rewrite Hkeys0.
      * split; [exact Hnd'|]. split; [exact Hal'|].
        intros key. rewrite Hkeys. cbn [list_use].
        rewrite elem_of_app, list_elem_of_singleton, elem_of_cons. tauto.
Qed.

Lemma select_unique_returns (caldb_in : list string) :
  forall (irf_in : list string) (acc : irf_lists),
    (length caldb_in <= length irf_in)%nat ->
    exists u, select_unique caldb_in irf_in acc = Returned u.
Proof.
  induction caldb_in as [|c cs IH]; intros irf_in acc H.
  - eexists. reflexivity.
  - destruct irf_in as [|f fs]; [simpl in H; lia|]. simpl.
    case_bool_decide; apply IH; simpl in H; lia.
Qed.

Lemma select_unique_raises (caldb_in : list string) :
  forall (irf_in : list string) (acc : irf_lists),
    (length irf_in < length caldb_in)%nat ->
    select_unique caldb_in irf_in acc
    = Raised (IndexError "list index out of range").
Proof.
  induction caldb_in as [|c cs IH]; intros irf_in acc H.
  - simpl in H. lia.
  - destruct irf_in as [|f fs]; [reflexivity|]. simpl.
    case_bool_decide; apply IH; simpl in H; lia.
Qed.

Lemma aligned_no_irf : aligned no_irf.
Proof. split; reflexivity. Qed.

(** When [irf_in] is as long as [caldb_in], the selection ends with three
    lists that describe the same entries; [list_use] holds every key
    [caldb_in[i] + irf_in[i]] and holds it once. *)
Theorem select_unique_keys (caldb_in irf_in : list string) :
  (length caldb_in <= length irf_in)%nat ->
  exists u,
    select_unique caldb_in irf_in no_irf = Returned u
    /\ NoDup (list_use u)
    /\ length (caldb_use u) = length (irf_use u)
    /\ list_use u = irf_keys (caldb_use u) (irf_use u)
    /\ forall key, key ∈ list_use u <-> key ∈ irf_keys caldb_in irf_in.
Proof.
  intros Hlen.
  destruct (select_unique_returns caldb_in irf_in no_irf Hlen) as [u Hu].
  destruct (select_unique_inv caldb_in irf_in no_irf u Hu)
    as (Hnd & [Hl Hk] & Hkeys);
    [apply NoDup_nil_2|apply aligned_no_irf|].
  exists u. repeat split; try assumption.
  - intros Hin. apply Hkeys in Hin as [Hin|Hin]; [inversion Hin|exact Hin].
  - intros Hin. apply Hkeys. now right.
Qed.

(** The key is the concatenation, so two different (caldb, irf) pairs that
    concatenate to the same string count as one IRF: the second is dropped. *)
Theorem select_unique_merges_equal_concatenations (c1 f1 c2 f2 : string) :
  c1 ++ f1 = c2 ++ f2 ->
  select_unique [c1; c2] [f1; f2] no_irf
  = Returned {| list_use := [c1 ++ f1];
                caldb_use := [c1];
                irf_use := [f1] |}.
Proof.
  intros H. cbn [select_unique no_irf list_use caldb_use irf_use].
  rewrite <- H.
  assert (Hnew : bool_decide (c1 ++ f1 ∈ @nil string) = false)
    by (apply bool_decide_eq_false_2; intros Hin; inversion Hin).
  rewrite Hnew. cbn [list_use caldb_use irf_use app].
  assert (Hseen : bool_decide (c1 ++ f1 ∈ [c1 ++ f1]) = true)
    by (apply bool_decide_eq_true_2; left).
  rewrite Hseen. reflexivity.
Qed.

End IrfFacts.

Section ShowIrfFacts.

Import Plotting PlottingObs.
Local Open Scope string_scope.

Variable irf_t : Type.
Variable load_irf : string -> string -> outcome irf_t.
Variable mission instrument rspname : irf_t -> string.
Variable toupper : string -> string.
Variable fmt_3f fmt_1f : R -> string.
Variable panels_t : Type.
Variable plot_panels :
  irf_t -> option R -> option R -> option R -> option R -> outcome panels_t.

Local Abbreviation show :=
  (show_irf irf_t load_irf mission instrument rspname toupper fmt_3f fmt_1f
            panels_t plot_panels).
Local Abbreviation plots :=
  (plot_irfs irf_t load_irf mission instrument rspname toupper fmt_3f fmt_1f
             panels_t plot_panels).

(** File names differ when keys differ. *)
Lemma length_append (a b : string) :
  String.length (a ++ b) = (String.length a + String.length b)%nat.
Proof. induction a as [|c a IH]; simpl; [reflexivity|now rewrite IH]. Qed.

Lemma append_inv_tail (a b t : string) : a ++ t = b ++ t -> a = b.
Proof.
  revert b. induction a as [|c a IH]; intros [|c' b] H.
  - reflexivity.
  - apply (f_equal String.length) in H.
    change ("" ++ t) with t in H.
    rewrite length_append in H. cbn [String.length] in H. lia.
  - apply (f_equal String.length) in H.
    change ("" ++ t) with t in H.
    rewrite length_append in H. cbn [String.length] in H. lia.
  - simpl in H. injection H as -> H. f_equal. now apply IH.
Qed.

Lemma append_inv_head (s a b : string) : s ++ a = s ++ b -> a = b.
Proof.
  induction s as [|c s IH]; simpl; intros H; [exact H|].
  injection H as H. now apply IH.
Qed.

Lemma irf_file_inj (plotfile k1 k2 : string) :
  irf_file plotfile k1 = irf_file plotfile k2 -> k1 = k2.
Proof.
  unfold irf_file. intros H.
  apply append_inv_head, append_inv_head in H.
  now apply append_inv_tail in H.
Qed.

Lemma NoDup_irf_files (plotfile : string) (keys : list string) :
  NoDup keys -> NoDup (map (irf_file plotfile) keys).
Proof.
  induction 1 as [|k keys Hk _ IH]; simpl; constructor; [|exact IH].
  intros Hin. apply Hk.
  apply list_elem_of_In, in_map_iff in Hin as (k' & Hf & Hin).
  apply irf_file_inj in Hf. subst. now apply list_elem_of_In.
Qed.

(** The files written by the loop: those of a first part of the keys, of
    all the keys when it returns. *)
Lemma plot_irfs_files (plotfile : string) (emin emax tmin tmax : option R)
    (caldbs : list string) :
  forall (keys irfs : list string) (saved : list (irf_figure panels_t)),
    length keys = length caldbs -> length irfs = length caldbs ->
    exists done rest,
      keys = (done ++ rest)%list
      /\ map (fig_file panels_t)
             (fst (plots plotfile emin emax tmin tmax keys caldbs irfs saved))
         = (map (fig_file panels_t) saved ++ map (irf_file plotfile) done)%list
      /\ (snd (plots plotfile emin emax tmin tmax keys caldbs irfs saved)
          = Returned tt -> rest = []).
Proof.
  induction caldbs as [|c caldbs IH]; intros keys irfs saved Hk Hi.
  - destruct keys; [|discriminate]. exists [], []. simpl.
    rewrite app_nil_r. auto.
  - destruct keys as [|key keys]; [discriminate|].
    destruct irfs as [|f irfs]; [discriminate|].
    cbn [plot_irfs].
    destruct (load_irf c f) as [irf|e].
    + destruct (plot_panels irf emin emax tmin tmax) as [panels|e].
      * destruct (IH keys irfs
                    (saved ++ [ {| fig_file := irf_file plotfile key;
                                   fig_title :=
                                     irf_title irf_t mission instrument rspname
                                       toupper irf
                                       (selection fmt_3f fmt_1f
                                          emin emax tmin tmax);
                                   fig_panels := panels |} ])%list)
          as (done & rest & Hsplit & Hfiles & Hret);
          [now injection Hk|now injection Hi|].
        exists (key :: done), rest. split; [now rewrite Hsplit|].
        split; [|exact Hret].
        rewrite Hfiles, map_app. cbn [map fig_file].
        now rewrite <- app_assoc.
      * exists [], (key :: keys). simpl. rewrite app_nil_r.
        repeat split. discriminate.
    + exists [], (key :: keys). simpl. rewrite app_nil_r.
      repeat split. discriminate.
Qed.

(** When [irf_in] is shorter than [caldb_in], the call raises [IndexError]
    in the selection loop: no response is loaded and no file is written. *)
Theorem show_irf_short_irf_list
    (caldb_in irf_in : list string) (plotfile : string)
    (emin emax tmin tmax : option R) :
  (length irf_in < length caldb_in)%nat ->
  show_irf irf_t load_irf mission instrument rspname toupper
    fmt_3f fmt_1f panels_t plot_panels
    caldb_in irf_in plotfile emin emax tmin tmax
  = ([], Raised (IndexError "list index out of range")).
Proof.
  intros H. unfold show_irf.
  now rewrite select_unique_raises.
Qed.

(** No two figures of one call share a file name, so no plot overwrites
    another; a call that returns has written one file per selected key. *)
Theorem show_irf_file_names_differ
    (caldb_in irf_in : list string) (plotfile : string)
    (emin emax tmin tmax : option R) :
  let r :=
    show_irf irf_t load_irf mission instrument rspname toupper
      fmt_3f fmt_1f panels_t plot_panels
      caldb_in irf_in plotfile emin emax tmin tmax in
  NoDup (map (fig_file panels_t) (fst r))
  /\ (snd r = Returned tt ->
      exists u,
        select_unique caldb_in irf_in no_irf = Returned u
        /\ map (fig_file panels_t) (fst r) = map (irf_file plotfile) (list_use u)).
Proof.
  intros r. unfold r, show_irf.
  destruct (select_unique caldb_in irf_in no_irf) as [u|e] eqn:Eu.
  - destruct (select_unique_inv caldb_in irf_in no_irf u Eu)
      as (Hnd & [Hl Hk] & _); [apply NoDup_nil_2|apply aligned_no_irf|].
    assert (Hkl : length (list_use u) = length (caldb_use u)).
    { rewrite Hk. unfold irf_keys.
      rewrite length_map, length_combine, <- Hl. lia. }
    destruct (plot_irfs_files plotfile emin emax tmin tmax (caldb_use u)
                (list_use u) (irf_use u) [] Hkl (eq_sym Hl))
      as (done & rest & Hsplit & Hfiles & Hret).
    cbn [map app] in Hfiles. rewrite Hfiles. split.
    + apply NoDup_irf_files. rewrite Hsplit in Hnd.
      now apply NoDup_app in Hnd as [Hd _].
    + intros Hr. exists u. split; [reflexivity|].
      rewrite (Hret Hr), app_nil_r in Hsplit. now rewrite Hsplit.
  - simpl. split; [constructor|discriminate].
Qed.

End ShowIrfFacts.

(** * Properties of get_pointings and show_pointings *)

Section PointingFacts.

Import Plotting PlottingObs.
Local Open Scope R_scope.

Variable py_float : string -> outcome R.
Variable galactic : R -> R -> R * R.

Local Abbreviation get := (get_pointings py_float galactic).
Local Abbreviation show := (show_pointings py_float galactic).

(** An observation with a parameter named Pointing. *)
Definition has_pointing (run : xml_observation) : bool :=
  existsb (fun par => String.eqb (par_name par) "Pointing")
          (obs_parameters run).

(** [ra] and [dec] are set together. *)
Definition radec_together (v : pointing_vars) : Prop :=
  (v_ra v = None /\ v_dec v = None)
  \/ (exists ra dec, v_ra v = Some ra /\ v_dec v = Some dec).

Definition ra_is_set (v : pointing_vars) : bool :=
  match v_ra v with Some _ => true | None => false end.

(** An error that [float] has raised on some string. *)
Definition float_error (e : exn) : Prop := exists s, py_float s = Raised e.

Lemma read_parameter_spec (par : xml_parameter) (v : pointing_vars) :
  radec_together v ->
  match read_parameter py_float par v with
  | Returned v' =>
      radec_together v'
      /\ ra_is_set v'
         = (String.eqb (par_name par) "Pointing" || ra_is_set v)%bool
  | Raised e => float_error e
  end.
Proof.
  intros Hv. unfold read_parameter.
  destruct (String.eqb (par_name par) "Pointing") eqn:E1.
  - destruct (py_float (par_attribute par "ra")) as [ra|e] eqn:Era;
      [|now exists (par_attribute par "ra")].
    destruct (py_float (par_attribute par "dec")) as [dec|e] eqn:Edec;
      [|now exists (par_attribute par "dec")].
    split; [right; now exists ra, dec|reflexivity].
  - destruct (String.eqb (par_name par) "RegionOfInterest").
    + destruct (py_float (par_attribute par "ra")) as [ra|e] eqn:Era;
        [|now exists (par_attribute par "ra")].
      destruct (py_float (par_attribute par "dec")) as [dec|e] eqn:Edec;
        [|now exists (par_attribute par "dec")].
      destruct (py_float (par_attribute par "rad")) as [rad|e] eqn:Erad;
        [|now exists (par_attribute par "rad")].
      split; [exact Hv|reflexivity].
    + destruct (String.eqb (par_name par) "EventList");
        (split; [exact Hv|reflexivity]).
Qed.

Lemma read_parameters_spec (pars : list xml_parameter) :
  forall v : pointing_vars,
    radec_together v ->
    match read_parameters py_float pars v with
    | Returned v' =>
        radec_together v'
        /\ ra_is_set v'
           = (existsb (fun par => String.eqb (par_name par) "Pointing") pars
              || ra_is_set v)%bool
    | Raised e => float_error e
    end.
Proof.
  induction pars as [|par pars IH]; intros v Hv; simpl.
  - now split.
  - pose proof (read_parameter_spec par v Hv) as Hpar.
    destruct (read_parameter py_float par v) as [v1|e]; [|exact Hpar].
    destruct Hpar as [Hv1 Hset].
    pose proof (IH v1 Hv1) as Hrest.
    destruct (read_parameters py_float pars v1) as [v2|e]; [|exact Hrest].
    destruct Hrest as [Hv2 Hset2]. split; [exact Hv2|].
    rewrite Hset2, Hset.
    destruct (String.eqb (par_name par) "Pointing"),
      (existsb _ pars), (ra_is_set v); reflexivity.
Qed.

Lemma read_observations_spec (obs : list xml_observation) :
  forall pnt : list pointing,
    match read_observations py_float galactic obs pnt with
    | Returned pnt' =>
        map p_obsid pnt'
        = map p_obsid pnt ++ map obs_id (List.filter has_pointing obs)
    | Raised e => float_error e
    end.
Proof.
  induction obs as [|run obs IH]; intros pnt; simpl.
  - now rewrite app_nil_r.
  - pose proof (read_parameters_spec (obs_parameters run) no_vars) as Hv.
    destruct (read_parameters py_float (obs_parameters run) no_vars)
      as [v|e]; [|apply Hv; left; now split].
    destruct Hv as [Htog Hset]; [left; now split|].
    rewrite orb_false_r in Hset. fold (has_pointing run) in Hset.
    unfold add_pointing. unfold ra_is_set in Hset.
    destruct Htog as [[Hra Hdec]|(ra & dec & Hra & Hdec)];
      rewrite Hra in *; [|rewrite Hdec].
    + rewrite <- Hset. apply IH.
    + rewrite <- Hset. specialize (IH (pnt ++ [ {| p_l := fst (galactic ra dec);
                                 p_b := snd (galactic ra dec);
                                 p_ra := ra; p_dec := dec;
                                 p_roi_ra := v_roi_ra v;
                                 p_roi_dec := v_roi_dec v;
                                 p_roi_rad := v_roi_rad v;
                                 p_evfile := v_evfile v;
                                 p_obsid := obs_id run |} ])).
      destruct (read_observations _ _ obs _) as [pnt'|e]; [|exact IH].
      rewrite IH, map_app. cbn [map p_obsid].
      now rewrite <- app_assoc.
Qed.

(** The returned list has, in file order, one entry for each observation
    that has a Pointing parameter, and none for the others. *)
Theorem get_pointings_keeps_observations_with_pointing
    (obs : list xml_observation) (pnt : list pointing) :
  get_pointings py_float galactic obs = Returned pnt ->
  map p_obsid pnt = map obs_id (List.filter has_pointing obs).
Proof.
  intros H. pose proof (read_observations_spec obs []) as Hspec.
  unfold get_pointings in H. rewrite H in Hspec. exact Hspec.
Qed.

(** The only errors of the function are those of [float]: the coordinates
    passed to [radec_deg] are never [None]. *)
Theorem get_pointings_fails_only_in_float
    (obs : list xml_observation) (e : exn) :
  get_pointings py_float galactic obs = Raised e -> exists s, py_float s = Raised e.
Proof.
  intros H. pose proof (read_observations_spec obs []) as Hspec.
  unfold get_pointings in H. rewrite H in Hspec. exact Hspec.
Qed.

(** The extent of a patch, as the loop records it. *)
Definition boxed (st : pointings_loop) : Prop :=
  xmin st = map (fun e => e_x e - e_width e / 2) (patches st)
  /\ xmax st = map (fun e => e_x e + e_width e / 2) (patches st)
  /\ ymin st = map (fun e => e_y e - e_height e / 2) (patches st)
  /\ ymax st = map (fun e => e_y e + e_height e / 2) (patches st).

Lemma half_of_double (r c : R) : 2 * r / c / 2 = r / c.
Proof. unfold Rdiv. set (ic := / c). lra. Qed.

Lemma half_of_twice (r : R) : 2 * r / 2 = r.
Proof. lra. Qed.

Lemma plot_pointings_boxed (pnt : list pointing) :
  forall (colors : list R) (st st' : pointings_loop),
    plot_pointings pnt colors st = Returned st' ->
    boxed st -> boxed st'.
Proof.
  induction pnt as [|p pnt IH]; intros colors st st' H Hst.
  - now injection H as <-.
  - destruct colors as [|color colors]; [discriminate|]. simpl in H.
    destruct (p_roi_rad p) as [rad|]; [|discriminate].
    destruct (p_roi_ra p) as [ra|]; [|discriminate].
    destruct (p_roi_dec p) as [dec|]; [|discriminate].
    apply IH in H; [exact H|].
    destruct Hst as (H1 & H2 & H3 & H4).
    unfold boxed. cbn [xmin xmax ymin ymax patches].
    rewrite !map_app, H1, H2, H3, H4.
    cbn [map e_x e_y e_width e_height].
    now rewrite half_of_double, half_of_twice.
Qed.

Lemma plot_pointings_missing_roi (pnt : list pointing) :
  forall (colors : list R) (st : pointings_loop),
    (length pnt <= length colors)%nat ->
    (exists p, In p pnt /\ p_roi_rad p = None) ->
    exists msg, plot_pointings pnt colors st = Raised (TypeError msg).
Proof.
  induction pnt as [|p pnt IH]; intros colors st Hlen (q & Hq & Hnone).
  - destruct Hq.
  - destruct colors as [|color colors]; [simpl in Hlen; lia|]. simpl.
    destruct (p_roi_rad p) as [rad|] eqn:Erad; [|eexists; reflexivity].
    destruct (p_roi_ra p) as [ra|]; [|eexists; reflexivity].
    destruct (p_roi_dec p) as [dec|]; [|eexists; reflexivity].
    apply IH; [simpl in Hlen; lia|].
    destruct Hq as [->|Hq]; [congruence|]. now exists q.
Qed.

Lemma linspace_length (a b : R) (n : nat) : length (linspace a b n) = n.
Proof. unfold linspace. now rewrite length_map, length_seq. Qed.

Lemma list_amax_upper (l : list R) (hi x : R) :
  list_amax l = Returned hi -> In x l -> x <= hi.
Proof.
  intros H Hx. apply (np_amax_upper [l] hi x H).
  simpl. now rewrite app_nil_r.
Qed.

Lemma list_amin_lower (l : list R) (lo x : R) :
  list_amin l = Returned lo -> In x l -> lo <= x.
Proof.
  intros H Hx. apply (np_amin_lower [l] lo x H).
  simpl. now rewrite app_nil_r.
Qed.

Lemma boxed_start : boxed loop_start.
Proof. repeat split. Qed.

(** What a call that returns has computed. *)
Lemma show_pointings_returned (obs : list xml_observation)
    (plotfile : string) (plot : pointings_plot) :
  show obs plotfile = Returned plot ->
  exists st xM xm yM ym,
    boxed st
    /\ plot_patches plot = patches st
    /\ list_amax (xmax st) = Returned xM
    /\ list_amin (xmin st) = Returned xm
    /\ list_amax (ymax st) = Returned yM
    /\ list_amin (ymin st) = Returned ym
    /\ xlim plot
       = ((xM + xm) / 2 - (xM - xm) * 1.1 / cos ((yM + ym) / 2 * PI / 180) / 2,
          (xM + xm) / 2 + (xM - xm) * 1.1 / cos ((yM + ym) / 2 * PI / 180) / 2)
    /\ ylim plot
       = ((yM + ym) / 2 - (yM - ym) * 1.1 / 2,
          (yM + ym) / 2 + (yM - ym) * 1.1 / 2).
Proof.
  unfold show_pointings. intros H.
  destruct (get obs) as [pnt|e]; [|discriminate].
  destruct (plot_pointings pnt _ loop_start) as [st|e] eqn:Est;
    [|discriminate].
  apply plot_pointings_boxed in Est; [|apply boxed_start].
  destruct (list_amax (xmax st)) as [xM|e] eqn:ExM; [|discriminate].
  destruct (list_amin (xmin st)) as [xm|e] eqn:Exm; [|discriminate].
  destruct (list_amax (ymax st)) as [yM|e] eqn:EyM; [|discriminate].
  destruct (list_amin (ymin st)) as [ym|e] eqn:Eym; [|discriminate].
  injection H as <-. exists st, xM, xm, yM, ym.
  split; [exact Est|].
  split; [reflexivity|]. split; [exact ExM|]. split; [exact Exm|].
  split; [exact EyM|]. split; [exact Eym|]. split; reflexivity.
Qed.

(** An observation file without any pointing cannot be plotted: the call
    raises [ValueError] on the empty list of extents, before [savefig]. *)
Theorem show_pointings_without_pointing
    (obs : list xml_observation) (plotfile : string) :
  get_pointings py_float galactic obs = Returned [] ->
  show_pointings py_float galactic obs plotfile
  = Raised (ValueError "zero-size array to reduction operation maximum").
Proof.
  intros H. unfold show_pointings. rewrite H. reflexivity.
Qed.

(** A pointing without a RegionOfInterest parameter makes the call raise
    [TypeError] in the loop, before [savefig]. *)
Theorem show_pointings_needs_region_of_interest
    (obs : list xml_observation) (plotfile : string) (pnt : list pointing) :
  get_pointings py_float galactic obs = Returned pnt ->
  (exists p, In p pnt /\ p_roi_rad p = None) ->
  exists msg, show_pointings py_float galactic obs plotfile = Raised (TypeError msg).
Proof.
  intros H Hnone. unfold show_pointings. rewrite H.
  destruct (plot_pointings_missing_roi pnt (linspace 0 1 (length pnt))
              loop_start) as [msg Hmsg];
    [now rewrite linspace_length|exact Hnone|].
  rewrite Hmsg. now exists msg.
Qed.

(** The Dec limits of the saved plot contain every region of interest. *)
Theorem show_pointings_dec_limits_contain_regions
    (obs : list xml_observation) (plotfile : string) (plot : pointings_plot)
    (e : roi_patch) :
  show_pointings py_float galactic obs plotfile = Returned plot ->
  In e (plot_patches plot) ->
  0 <= e_height e ->
  fst (ylim plot) <= e_y e - e_height e / 2
  /\ e_y e + e_height e / 2 <= snd (ylim plot).
Proof.
  intros H He Hh.
  destruct (show_pointings_returned obs plotfile plot H)
    as (st & xM & xm & yM & ym & Hbox & Hp & _ & _ & HyM & Hym & _ & Hylim).
  destruct Hbox as (_ & _ & Hymin & Hymax).
  rewrite Hp in He. rewrite Hylim. cbn [fst snd].
  assert (Hlo : ym <= e_y e - e_height e / 2).
  { apply (list_amin_lower _ _ _ Hym). rewrite Hymin.
    apply in_map_iff. now exists e. }
  assert (Hhi : e_y e + e_height e / 2 <= yM).
  { apply (list_amax_upper _ _ _ HyM). rewrite Hymax.
    apply in_map_iff. now exists e. }
  split; lra.
Qed.

(** So do the RA limits, when the plot is centred away from the poles. *)
Theorem show_pointings_ra_limits_contain_regions
    (obs : list xml_observation) (plotfile : string) (plot : pointings_plot)
    (e : roi_patch) :
  show_pointings py_float galactic obs plotfile = Returned plot ->
  In e (plot_patches plot) ->
  0 <= e_width e ->
  0 < cos ((fst (ylim plot) + snd (ylim plot)) / 2 * PI / 180) ->
  fst (xlim plot) <= e_x e - e_width e / 2
  /\ e_x e + e_width e / 2 <= snd (xlim plot).
Proof.
  intros H He Hw Hcos.
  destruct (show_pointings_returned obs plotfile plot H)
    as (st & xM & xm & yM & ym & Hbox & Hp & HxM & Hxm & _ & _ & Hxlim & Hylim).
  destruct Hbox as (Hxmin & Hxmax & _ & _).
  rewrite Hp in He. rewrite Hylim in Hcos. cbn [fst snd] in Hcos.
  replace (((yM + ym) / 2 - (yM - ym) * 1.1 / 2
            + ((yM + ym) / 2 + (yM - ym) * 1.1 / 2)) / 2)
    with ((yM + ym) / 2) in Hcos by lra.
  rewrite Hxlim. cbn [fst snd].
  set (c := cos ((yM + ym) / 2 * PI / 180)) in *.
  assert (Hc1 : c <= 1) by apply COS_bound.
  assert (Hlo : xm <= e_x e - e_width e / 2).
  { apply (list_amin_lower _ _ _ Hxm). rewrite Hxmin.
    apply in_map_iff. now exists e. }
  assert (Hhi : e_x e + e_width e / 2 <= xM).
  { apply (list_amax_upper _ _ _ HxM). rewrite Hxmax.
    apply in_map_iff. now exists e. }
  assert (Hfov : (xM - xm) * 1.1 <= (xM - xm) * 1.1 / c).
  { apply (Rmult_le_reg_r c); [exact Hcos|].
    replace ((xM - xm) * 1.1 / c * c) with ((xM - xm) * 1.1)
      by (field; lra).
    nra. }
  split; lra.
Qed.

End PointingFacts.

(** * The new statements at sample inputs *)

Module ObsSamples.

Import Plotting PlottingObs.
Local Open Scope string_scope.

(** A [float] that knows three numerals. *)
Definition sample_float (s : string) : outcome R :=
  if String.eqb s "83.6" then Returned 83.6%R
  else if String.eqb s "0" then Returned 0%R
  else if String.eqb s "1" then Returned 1%R
  else Raised (ValueError "could not convert string to float").

(** A stand-in for the conversion to galactic coordinates. *)
Definition sample_galactic (ra dec : R) : R * R := (ra, dec).

Definition attributes (key : string) : string :=
  if String.eqb key "ra" then "83.6"
  else if String.eqb key "dec" then "0"
  else if String.eqb key "rad" then "1"
  else if String.eqb key "file" then "events.fits"
  else "".

Definition no_attribute (key : string) : string := "".

Definition par_pointing : xml_parameter :=
  {| par_name := "Pointing"; par_attribute := attributes |}.
Definition par_roi : xml_parameter :=
  {| par_name := "RegionOfInterest"; par_attribute := attributes |}.
Definition par_events : xml_parameter :=
  {| par_name := "EventList"; par_attribute := attributes |}.
Definition par_broken : xml_parameter :=
  {| par_name := "Pointing"; par_attribute := no_attribute |}.

(** A complete observation, one without pointing, one without region of
    interest and one whose pointing has no coordinates. *)
Definition obs_complete : xml_observation :=
  {| obs_id := "001"; obs_parameters := [par_pointing; par_roi; par_events] |}.
Definition obs_unpointed : xml_observation :=
  {| obs_id := "002"; obs_parameters := [par_events] |}.
Definition obs_no_roi : xml_observation :=
  {| obs_id := "003"; obs_parameters := [par_pointing] |}.
Definition obs_broken : xml_observation :=
  {| obs_id := "004"; obs_parameters := [par_broken] |}.

Definition pointing_complete : pointing :=
  {| p_l := 83.6; p_b := 0; p_ra := 83.6; p_dec := 0;
     p_roi_ra := Some 83.6%R; p_roi_dec := Some 0%R; p_roi_rad := Some 1%R;
     p_evfile := Some "events.fits"; p_obsid := "001" |}.

Definition pointing_no_roi : pointing :=
  {| p_l := 83.6; p_b := 0; p_ra := 83.6; p_dec := 0;
     p_roi_ra := None; p_roi_dec := None; p_roi_rad := None;
     p_evfile := None; p_obsid := "003" |}.

(** Stand-ins for gammalib and for the panels of [plotting_irf]. *)
Definition sample_load (caldb irf : string) : outcome (string * string) :=
  Returned (caldb, irf).
Definition sample_name (irf : string * string) : string := fst irf.
Definition sample_upper (s : string) : string := s.
Definition sample_format (x : R) : string := "1.0".
Definition sample_panels (irf : string * string)
    (emin emax tmin tmax : option R) : outcome unit := Returned tt.

(** An interpolant that is constant. *)
Definition flat_spline (xs ys : list R) (x : R) : R := 1.

(** The plot of the complete observation alone. *)
Definition first_color : R := (0 + INR 0 * ((1 - 0) / INR (1 - 1)))%R.

Definition patch_complete : roi_patch :=
  {| e_x := 83.6; e_y := 0;
     e_width := (2 * 1 / cos (0 * PI / 180))%R;
     e_height := (2 * 1)%R;
     e_color := first_color;
     e_label := "ObsID001" |}.

Definition plot_complete : pointings_plot :=
  let xM := (83.6 + 1 / cos (0 * PI / 180))%R in
  let xm := (83.6 - 1 / cos (0 * PI / 180))%R in
  let yM := (0 + 1)%R in
  let ym := (0 - 1)%R in
  let xctr := ((xM + xm) / 2)%R in
  let yctr := ((yM + ym) / 2)%R in
  let fovx := ((xM - xm) * 1.1 / cos (yctr * PI / 180))%R in
  let fovy := ((yM - ym) * 1.1)%R in
  {| plot_markers := [ {| m_x := 83.6; m_y := 0; m_color := first_color |} ];
     plot_patches := [patch_complete];
     xlim := ((xctr - fovx / 2)%R, (xctr + fovx / 2)%R);
     ylim := ((yctr - fovy / 2)%R, (yctr + fovy / 2)%R);
     plot_file := "pointings.png" |}.

End ObsSamples.

Section MoreSamples.

Import Admin Plotting PlottingObs ObsSamples.
Local Open Scope string_scope.

Definition two_runs : self_t :=
  {| obs_setup_obsid := ["001"; "002"]; silent := false |}.

Lemma two_runs_list :
  _check_obsID two_runs (str_list ["002"; "007"; "002"])
  = (["WARNING: obsID 007 does not exist, ignore it"],
     Returned [PyNpStr "002"]).
Proof. vm_compute. reflexivity. Qed.

Lemma check_obsID_returns_known_runs_witness :
  exists s, s ∈ obs_setup_obsid two_runs
            /\ (PyNpStr "002" = PyStr s \/ PyNpStr "002" = PyNpStr (np_item s)).
Proof.
  apply (check_obsID_returns_known_runs two_runs
           (str_list ["002"; "007"; "002"])
           ["WARNING: obsID 007 does not exist, ignore it"]
           [PyNpStr "002"] two_runs_list (PyNpStr "002")).
  left.
Defined.

Lemma check_obsID_string_is_singleton_list_witness :
  _check_obsID two_runs (PyStr "002") = ([], Returned [PyStr "002"])
  /\ _check_obsID two_runs (str_list ["002"])
     = ([], Returned [PyNpStr (np_item "002")]).
Proof.
  apply (check_obsID_string_is_singleton_list two_runs "002").
  right. left.
Defined.

Lemma check_obsID_twice_witness :
  _check_obsID two_runs (PyList [PyNpStr "002"])
  = ([], Raised (ValueError
                   "The given obsID should be a string or a list of string.")).
Proof.
  exact (check_obsID_twice two_runs
           (map PyStr ["002"; "007"; "002"])
           ["WARNING: obsID 007 does not exist, ignore it"]
           [PyNpStr "002"] two_runs_list).
Defined.

Lemma select_unique_keys_witness :
  exists u,
    select_unique ["prod2"; "prod2"; "prod3"] ["South"; "South"; "South"]
                  no_irf = Returned u
    /\ NoDup (list_use u)
    /\ length (caldb_use u) = length (irf_use u)
    /\ list_use u = irf_keys (caldb_use u) (irf_use u)
    /\ forall key,
         key ∈ list_use u
         <-> key ∈ irf_keys ["prod2"; "prod2"; "prod3"]
                            ["South"; "South"; "South"].
Proof.
  apply (select_unique_keys ["prod2"; "prod2"; "prod3"]
                            ["South"; "South"; "South"]).
  simpl. lia.
Defined.

Lemma select_unique_merges_equal_concatenations_witness :
  select_unique ["ab"; "a"] ["c"; "bc"] no_irf
  = Returned {| list_use := ["abc"]; caldb_use := ["ab"]; irf_use := ["c"] |}.
Proof.
  exact (select_unique_merges_equal_concatenations "ab" "c" "a" "bc" eq_refl).
Defined.

Lemma show_irf_short_irf_list_witness :
  show_irf (string * string) sample_load sample_name sample_name sample_name
           sample_upper sample_format sample_format unit sample_panels
           ["prod2"; "prod3"] ["South"] "irf" None None None None
  = ([], Raised (IndexError "list index out of range")).
Proof.
  apply (show_irf_short_irf_list (string * string) sample_load sample_name
           sample_name sample_name sample_upper sample_format sample_format unit
           sample_panels ["prod2"; "prod3"] ["South"] "irf"
           None None None None).
  simpl. lia.
Defined.

Lemma get_complete :
  get_pointings sample_float sample_galactic [obs_unpointed; obs_complete]
  = Returned [pointing_complete].
Proof. reflexivity. Qed.

Lemma get_no_roi :
  get_pointings sample_float sample_galactic [obs_no_roi]
  = Returned [pointing_no_roi].
Proof. reflexivity. Qed.

Lemma get_broken :
  get_pointings sample_float sample_galactic [obs_complete; obs_broken]
  = Raised (ValueError "could not convert string to float").
Proof. reflexivity. Qed.

Lemma get_unpointed :
  get_pointings sample_float sample_galactic [obs_unpointed] = Returned [].
Proof. reflexivity. Qed.

Lemma get_pointings_keeps_observations_with_pointing_witness :
  map p_obsid [pointing_complete]
  = map obs_id (List.filter has_pointing [obs_unpointed; obs_complete]).
Proof.
  exact (get_pointings_keeps_observations_with_pointing
           sample_float sample_galactic [obs_unpointed; obs_complete]
           [pointing_complete] get_complete).
Defined.

Lemma get_pointings_fails_only_in_float_witness :
  exists s,
    sample_float s = Raised (ValueError "could not convert string to float").
Proof.
  exact (get_pointings_fails_only_in_float
           sample_float sample_galactic [obs_complete; obs_broken]
           (ValueError "could not convert string to float") get_broken).
Defined.

Lemma show_pointings_without_pointing_witness :
  show_pointings sample_float sample_galactic [obs_unpointed] "pointings.png"
  = Raised (ValueError "zero-size array to reduction operation maximum").
Proof.
  exact (show_pointings_without_pointing sample_float sample_galactic
           [obs_unpointed] "pointings.png" get_unpointed).
Defined.

Lemma show_pointings_needs_region_of_interest_witness :
  exists msg,
    show_pointings sample_float sample_galactic [obs_no_roi] "pointings.png"
    = Raised (TypeError msg).
Proof.
  apply (show_pointings_needs_region_of_interest sample_float sample_galactic
           [obs_no_roi] "pointings.png" [pointing_no_roi] get_no_roi).
  exists pointing_no_roi. split; [now left|reflexivity].
Defined.

Lemma show_complete :
  show_pointings sample_float sample_galactic [obs_complete] "pointings.png"
  = Returned plot_complete.
Proof. reflexivity. Qed.

Lemma show_pointings_dec_limits_contain_regions_witness :
  (fst (ylim plot_complete) <= e_y patch_complete - e_height patch_complete / 2
   /\ e_y patch_complete + e_height patch_complete / 2
      <= snd (ylim plot_complete))%R.
Proof.
  apply (show_pointings_dec_limits_contain_regions sample_float
           sample_galactic [obs_complete] "pointings.png" plot_complete
           patch_complete show_complete).
  - now left.
  - unfold patch_complete. cbn [e_height]. lra.
Defined.

Lemma cos_0_deg : cos (0 * PI / 180) = 1%R.
Proof. replace (0 * PI / 180)%R with 0%R by lra. apply cos_0. Qed.

Lemma show_pointings_ra_limits_contain_regions_witness :
  (fst (xlim plot_complete) <= e_x patch_complete - e_width patch_complete / 2
   /\ e_x patch_complete + e_width patch_complete / 2
      <= snd (xlim plot_complete))%R.
Proof.
  apply (show_pointings_ra_limits_contain_regions sample_float
           sample_galactic [obs_complete] "pointings.png" plot_complete
           patch_complete show_complete).
  - now left.
  - unfold patch_complete. cbn [e_width]. rewrite cos_0_deg. lra.
  - unfold plot_complete. cbn [ylim fst snd].
    replace (((0 + 1 + (0 - 1)) / 2 - (0 + 1 - (0 - 1)) * 1.1 / 2
              + ((0 + 1 + (0 - 1)) / 2 + (0 + 1 - (0 - 1)) * 1.1 / 2)) / 2
             * PI / 180)%R
      with (0 * PI / 180)%R by lra.
    rewrite cos_0_deg. lra.
Defined.

End MoreSamples.

Section MoreRenderSamples.

Import Plotting ObsSamples.
Local Open Scope R_scope.

Lemma empty_map_line_iff_all_zero_witness :
  all_zero (processed copy_weight (sample_call zeros_10x10 0 false))
  <-> In (empty_line "map.png")
         (stdout (fst (show_map copy_weight
                         (sample_call zeros_10x10 0 false) world0))).
Proof.
  exact (empty_map_line_iff_all_zero copy_weight
           (sample_call zeros_10x10 0 false) has_pixels_zeros).
Defined.


Lemma psf_of_short_table_raises_witness :
  exists msg,
    get_cta_psf lagrange two_bins 1.6 2.4 (-2) = Raised (ValueError msg).
Proof.
  apply (psf_of_short_table_raises lagrange two_bins 1.6 2.4 (-2)).
  intros es Hes. rewrite eng_mean_two_bins in Hes. injection Hes as <-.
  left. simpl. lia.
Defined.


End MoreRenderSamples.
